(** * SSH-Config-Gui: the configuration parser, the note store, the
      configuration mutator and the session log of [arch-app.py]

    A shallow embedding of the core of [arch-app.py] and the proofs of
    its specified properties.

    Conventions of the embedding.
    - A Python [str] is the list of the bytes of its UTF-8 encoding
      ([str := list ascii]); [identifier.encode()] is therefore the
      identity.  The character classes of [str.strip], [str.split],
      [str.lower] and [str.splitlines] are the ones Python uses on the ASCII
      range; bytes above 127 are ordinary characters (neither white space
      nor cased).
    - A [dict] with string keys is a [gmap str V].
    - The file system is a finite map from paths to nodes; a node is a
      regular file with its text, or a node that exists but cannot be read
      or written (a directory, a file without permissions).
    - A Python exception is an explicit outcome ([Raised]); [try]/[except]
      is a [match] on it. *)

From Stdlib Require Import ZArith NArith Ascii String List Bool Lia.
From stdpp Require Import gmap strings list.
Import ListNotations.

Abbreviation str := (list ascii).

(** [lit "abc"] is the [str] of a literal of the source. *)
Definition lit (s : string) : str := String.list_ascii_of_string s.

(* ===================================================================== *)
(** * Python's string methods *)
(* ===================================================================== *)

Module Str.

Definition code (c : ascii) : N := N_of_ascii c.

(** [c.isspace()] on the ASCII range: TAB, LF, VT, FF, CR, FS, GS, RS,
    US and SPACE. *)
Definition isspace (c : ascii) : bool :=
  ((9 <=? code c) && (code c <=? 13) || (28 <=? code c) && (code c <=? 32))%N.

Definition isupper (c : ascii) : bool :=
  ((65 <=? code c) && (code c <=? 90))%N.

Definition lower_char (c : ascii) : ascii :=
  if isupper c then ascii_of_N (code c + 32) else c.

(** [s.lower()] *)
Definition lower (s : str) : str := map lower_char s.

(** [s.startswith(prefix)] *)
Fixpoint startswith (prefix s : str) : bool :=
  match prefix, s with
  | [], _ => true
  | _ :: _, [] => false
  | p :: prefix', c :: s' => if Ascii.eqb p c then startswith prefix' s' else false
  end.

(** [sub in s] *)
Fixpoint contains (sub s : str) : bool :=
  startswith sub s ||
  match s with
  | [] => false
  | _ :: s' => contains sub s'
  end.

(** [s.lstrip(chars)], [s.rstrip(chars)] and [s.strip(chars)], the set of
    characters given as a predicate. *)
Fixpoint lstrip_by (p : ascii -> bool) (s : str) : str :=
  match s with
  | [] => []
  | c :: s' => if p c then lstrip_by p s' else s
  end.

Fixpoint rstrip_by (p : ascii -> bool) (s : str) : str :=
  match s with
  | [] => []
  | c :: s' =>
      match rstrip_by p s' with
      | [] => if p c then [] else [c]
      | r => c :: r
      end
  end.

Definition strip_by (p : ascii -> bool) (s : str) : str :=
  lstrip_by p (rstrip_by p s).

(** [s.strip()] *)
Definition strip (s : str) : str := strip_by isspace s.

(** [s.strip(chars)]; the parser calls it with the double quote. *)
Definition strip_chars (chars : str) (s : str) : str :=
  strip_by (fun c => existsb (Ascii.eqb c) chars) s.

(** The first run of characters that are not white space, and what
    follows it. *)
Fixpoint word (s : str) : str :=
  match s with
  | [] => []
  | c :: s' => if isspace c then [] else c :: word s'
  end.

Fixpoint after_word (s : str) : str :=
  match s with
  | [] => []
  | c :: s' => if isspace c then s else after_word s'
  end.

(** The first token of a string: its first word, after the white space
    it starts with. *)
Definition first_token (s : str) : str := word (lstrip_by isspace s).

(** [s.split()]: the maximal runs of characters that are not white
    space. *)
Fixpoint split (s : str) : list str :=
  match s with
  | [] => []
  | c :: s' =>
      if isspace c then split s'
      else match s' with
           | [] => [[c]]
           | c' :: _ =>
               if isspace c' then [c] :: split s'
               else match split s' with
                    | w :: ws => (c :: w) :: ws
                    | [] => [[c]]
                    end
           end
  end.

(** [s.split(None, 1)] and [s.split(maxsplit=1)]: the first word, and
    the rest of the string after the white space that follows it, up to
    the end of the string. *)
Definition split_max1 (s : str) : list str :=
  match lstrip_by isspace s with
  | [] => []
  | s1 =>
      match lstrip_by isspace (after_word s1) with
      | [] => [word s1]
      | rest => [word s1; rest]
      end
  end.

(** [s.split(sep)] for a separator of one character. *)
Fixpoint split_on (sep : ascii) (s : str) : list str :=
  match s with
  | [] => [[]]
  | c :: s' =>
      if Ascii.eqb c sep then [] :: split_on sep s'
      else match split_on sep s' with
           | l :: ls => (c :: l) :: ls
           | [] => [[c]]
           end
  end.

(** [sep.join(parts)] *)
Fixpoint join (sep : str) (parts : list str) : str :=
  match parts with
  | [] => []
  | [p] => p
  | p :: ps => p ++ sep ++ join sep ps
  end.

(** Line boundaries of [s.splitlines()] on the ASCII range: LF, VT, FF,
    CR, FS, GS and RS, with CR LF as one boundary. *)
Definition islinebreak (c : ascii) : bool :=
  ((10 <=? code c) && (code c <=? 13) || (28 <=? code c) && (code c <=? 30))%N.

Fixpoint splitlines (s : str) : list str :=
  match s with
  | [] => []
  | c :: s' =>
      if islinebreak c then
        match c, s' with
        | "013"%char, "010"%char :: s'' => [] :: splitlines s''
        | _, _ => [] :: splitlines s'
        end
      else match splitlines s' with
           | l :: ls => (c :: l) :: ls
           | [] => [[c]]
           end
  end.

End Str.

(* ===================================================================== *)
(** * [hashlib.md5]: the MD5 message digest (RFC 1321) *)
(* ===================================================================== *)

Module MD5.
Local Open Scope Z_scope.

(** 32-bit words are integers taken modulo [2^32]. *)
Definition wrap32 (x : Z) : Z := x mod 2 ^ 32.
Definition not32 (x : Z) : Z := Z.lxor x 0xffffffff.
Definition rotl32 (x c : Z) : Z :=
  wrap32 (Z.lor (Z.shiftl x c) (Z.shiftr x (32 - c))).

(** Per-round shift amounts. *)
Definition S : list Z :=
  [ 7; 12; 17; 22; 7; 12; 17; 22; 7; 12; 17; 22; 7; 12; 17; 22;
    5; 9; 14; 20; 5; 9; 14; 20; 5; 9; 14; 20; 5; 9; 14; 20;
    4; 11; 16; 23; 4; 11; 16; 23; 4; 11; 16; 23; 4; 11; 16; 23;
    6; 10; 15; 21; 6; 10; 15; 21; 6; 10; 15; 21; 6; 10; 15; 21 ].

(** [K[i] = floor(2^32 * abs(sin(i + 1)))]. *)
Definition K : list Z :=
  [ 0xd76aa478; 0xe8c7b756; 0x242070db; 0xc1bdceee;
    0xf57c0faf; 0x4787c62a; 0xa8304613; 0xfd469501;
    0x698098d8; 0x8b44f7af; 0xffff5bb1; 0x895cd7be;
    0x6b901122; 0xfd987193; 0xa679438e; 0x49b40821;
    0xf61e2562; 0xc040b340; 0x265e5a51; 0xe9b6c7aa;
    0xd62f105d; 0x02441453; 0xd8a1e681; 0xe7d3fbc8;
    0x21e1cde6; 0xc33707d6; 0xf4d50d87; 0x455a14ed;
    0xa9e3e905; 0xfcefa3f8; 0x676f02d9; 0x8d2a4c8a;
    0xfffa3942; 0x8771f681; 0x6d9d6122; 0xfde5380c;
    0xa4beea44; 0x4bdecfa9; 0xf6bb4b60; 0xbebfbc70;
    0x289b7ec6; 0xeaa127fa; 0xd4ef3085; 0x04881d05;
    0xd9d4d039; 0xe6db99e5; 0x1fa27cf8; 0xc4ac5665;
    0xf4292244; 0x432aff97; 0xab9423a7; 0xfc93a039;
    0x655b59c3; 0x8f0ccc92; 0xffeff47d; 0x85845dd1;
    0x6fa87e4f; 0xfe2ce6e0; 0xa3014314; 0x4e0811a1;
    0xf7537e82; 0xbd3af235; 0x2ad7d2bb; 0xeb86d391 ].

Record state := State { sA : Z; sB : Z; sC : Z; sD : Z }.

Definition init : state :=
  State 0x67452301 0xefcdab89 0x98badcfe 0x10325476.

(** The message bytes, the byte 0x80, zero bytes up to 56 modulo 64, and
    the length of the message in bits as 8 little-endian bytes. *)
Definition le_bytes (n : nat) (x : Z) : list Z :=
  map (fun i => Z.shiftr x (8 * Z.of_nat i) mod 256) (seq 0 n).

Definition pad (msg : list Z) : list Z :=
  let len := Z.of_nat (length msg) in
  msg ++ [0x80] ++ repeat 0 (Z.to_nat ((55 - len) mod 64))
      ++ le_bytes 8 ((8 * len) mod 2 ^ 64).

Definition le_word (bs : list Z) : Z :=
  fold_right (fun b acc => b + 256 * acc) 0 bs.

Fixpoint words (n : nat) (bs : list Z) : list Z :=
  match n with
  | O => []
  | Datatypes.S n' => le_word (firstn 4 bs) :: words n' (skipn 4 bs)
  end.

(** One of the 64 operations on a 16-word block [M]. *)
Definition step (M : list Z) (st : state) (i : nat) : state :=
  let '(State a b c d) := st in
  let zi := Z.of_nat i in
  let '(f, g) :=
    if zi <? 16 then (Z.lor (Z.land b c) (Z.land (not32 b) d), zi)
    else if zi <? 32 then
      (Z.lor (Z.land d b) (Z.land (not32 d) c), (5 * zi + 1) mod 16)
    else if zi <? 48 then (Z.lxor (Z.lxor b c) d, (3 * zi + 5) mod 16)
    else (Z.lxor c (Z.lor b (not32 d)), (7 * zi) mod 16) in
  let f' := wrap32 (f + a + nth i K 0 + nth (Z.to_nat g) M 0) in
  State d (wrap32 (b + rotl32 f' (nth i S 0))) b c.

Definition block (st : state) (bs : list Z) : state :=
  let '(State a b c d) := fold_left (step (words 16 bs)) (seq 0 64) st in
  State (wrap32 (sA st + a)) (wrap32 (sB st + b))
        (wrap32 (sC st + c)) (wrap32 (sD st + d)).

Fixpoint blocks (n : nat) (st : state) (bs : list Z) : state :=
  match n with
  | O => st
  | Datatypes.S n' => blocks n' (block st (firstn 64 bs)) (skipn 64 bs)
  end.

(** [hashlib.md5(data).digest()] as 16 bytes. *)
Definition digest (data : str) : list Z :=
  let bs := pad (map (fun c => Z.of_N (N_of_ascii c)) data) in
  let '(State a b c d) := blocks (length bs / 64) init bs in
  le_bytes 4 a ++ le_bytes 4 b ++ le_bytes 4 c ++ le_bytes 4 d.

Definition hexdigits : str := lit "0123456789abcdef".

Definition hex_byte (b : Z) : str :=
  [ nth (Z.to_nat (b / 16)) hexdigits "0"%char;
    nth (Z.to_nat (b mod 16)) hexdigits "0"%char ].

(** [hashlib.md5(data).hexdigest()] *)
Definition hexdigest (data : str) : str :=
  flat_map hex_byte (digest data).

End MD5.

(* ===================================================================== *)
(** * [json.dumps] and [json.loads] *)
(* ===================================================================== *)

Module Json.
Local Open Scope N_scope.

Definition dq : ascii := "034"%char.
Definition backslash : ascii := "092"%char.

(** What [json.loads] returns.  A number keeps its lexeme; an object
    keeps its members in order, and a lookup takes the last one, as the
    [dict] built from them does. *)
#[warnings="-register-all"]
Inductive value :=
| Null
| Bool (b : bool)
| Number (lexeme : str)
| String_ (s : str)
| Array (items : list value)
| Object (members : list (str * value)).

(** ** Encoding, with [ensure_ascii=False] *)

Definition hexdigit (n : N) : ascii :=
  nth (N.to_nat n) (lit "0123456789abcdef") "0"%char.

(** The quote, the backslash and the characters below 0x20 are escaped,
    the others are copied. *)
Definition escape_char (c : ascii) : str :=
  if Ascii.eqb c dq then [backslash; dq]
  else if Ascii.eqb c backslash then [backslash; backslash]
  else if Ascii.eqb c "010" then [backslash; "n"%char]
  else if Ascii.eqb c "013" then [backslash; "r"%char]
  else if Ascii.eqb c "009" then [backslash; "t"%char]
  else if Ascii.eqb c "008" then [backslash; "b"%char]
  else if Ascii.eqb c "012" then [backslash; "f"%char]
  else if Str.code c <? 32 then
    [backslash; "u"%char; "0"%char; "0"%char;
     hexdigit (Str.code c / 16); hexdigit (Str.code c mod 16)]
  else [c].

Definition encode_string (s : str) : str :=
  dq :: flat_map escape_char s ++ [dq].

Definition encode_member (kv : str * str) : str :=
  encode_string (fst kv) ++ lit ": " ++ encode_string (snd kv).

(** [json.dumps(d, indent=2, ensure_ascii=False)] for a [dict] [d] whose
    values are strings, given as its items in insertion order. *)
Definition dumps (d : list (str * str)) : str :=
  match d with
  | [] => lit "{}"
  | _ =>
      lit "{" ++ ["010"%char] ++ lit "  "
      ++ Str.join (lit "," ++ ["010"%char] ++ lit "  ") (map encode_member d)
      ++ ["010"%char] ++ lit "}"
  end.

(** What the decoder makes of such a [dict], and the text between and
    after its items. *)
Definition as_strings (d : list (str * str)) : list (str * value) :=
  map (fun kv => (fst kv, String_ (snd kv))) d.

Definition separator : str := lit "," ++ ["010"%char] ++ lit "  ".

Definition closing : str := ["010"%char] ++ lit "}".

(** ** Decoding *)

Definition is_ws (c : ascii) : bool :=
  Ascii.eqb c " " || Ascii.eqb c "009" || Ascii.eqb c "010" || Ascii.eqb c "013".

Definition skip_ws (s : str) : str := Str.lstrip_by is_ws s.

Definition hexval (c : ascii) : option N :=
  let n := Str.code c in
  if (48 <=? n) && (n <=? 57) then Some (n - 48)
  else if (97 <=? n) && (n <=? 102) then Some (n - 87)
  else if (65 <=? n) && (n <=? 70) then Some (n - 55)
  else None.

Definition hex4 (a b c d : ascii) : option N :=
  match hexval a, hexval b, hexval c, hexval d with
  | Some x, Some y, Some z, Some w => Some (((x * 16 + y) * 16 + z) * 16 + w)
  | _, _, _, _ => None
  end.

(** The UTF-8 bytes of a code point. *)
Definition utf8 (cp : N) : str :=
  if cp <? 0x80 then [ascii_of_N cp]
  else if cp <? 0x800 then
    [ascii_of_N (0xC0 + cp / 64); ascii_of_N (0x80 + cp mod 64)]
  else if cp <? 0x10000 then
    [ascii_of_N (0xE0 + cp / 4096); ascii_of_N (0x80 + (cp / 64) mod 64);
     ascii_of_N (0x80 + cp mod 64)]
  else
    [ascii_of_N (0xF0 + cp / 262144); ascii_of_N (0x80 + (cp / 4096) mod 64);
     ascii_of_N (0x80 + (cp / 64) mod 64); ascii_of_N (0x80 + cp mod 64)].

Definition unescape (e : ascii) : option ascii :=
  if Ascii.eqb e dq then Some dq
  else if Ascii.eqb e backslash then Some backslash
  else if Ascii.eqb e "/" then Some "/"%char
  else if Ascii.eqb e "b" then Some "008"%char
  else if Ascii.eqb e "f" then Some "012"%char
  else if Ascii.eqb e "n" then Some "010"%char
  else if Ascii.eqb e "r" then Some "013"%char
  else if Ascii.eqb e "t" then Some "009"%char
  else None.

Definition prepend (pre : str) (r : option (str * str)) : option (str * str) :=
  match r with
  | Some (v, rest) => Some (pre ++ v, rest)
  | None => None
  end.

Definition is_high (cp : N) : bool := (0xD800 <=? cp) && (cp <? 0xDC00).
Definition is_low (cp : N) : bool := (0xDC00 <=? cp) && (cp <? 0xE000).

(** [scanstring], strict: from the character after the opening quote to
    the closing quote; the decoded string and the rest of the input. *)
Fixpoint scanstring (s : str) : option (str * str) :=
  match s with
  | [] => None
  | c :: r =>
      if Ascii.eqb c dq then Some ([], r)
      else if Ascii.eqb c backslash then
        match r with
        | [] => None
        | e :: r1 =>
            if Ascii.eqb e "u" then
              match r1 with
              | h1 :: h2 :: h3 :: h4 :: r2 =>
                  match hex4 h1 h2 h3 h4 with
                  | None => None
                  | Some cp =>
                      if is_high cp then
                        match r2 with
                        | b :: u :: l1 :: l2 :: l3 :: l4 :: r3 =>
                            if Ascii.eqb b backslash && Ascii.eqb u "u" then
                              match hex4 l1 l2 l3 l4 with
                              | None => None
                              | Some lo =>
                                  if is_low lo then
                                    prepend
                                      (utf8 (0x10000 + (cp - 0xD800) * 1024
                                             + (lo - 0xDC00)))
                                      (scanstring r3)
                                  else prepend (utf8 cp) (scanstring r2)
                              end
                            else prepend (utf8 cp) (scanstring r2)
                        | _ => prepend (utf8 cp) (scanstring r2)
                        end
                      else prepend (utf8 cp) (scanstring r2)
                  end
              | _ => None
              end
            else
              match unescape e with
              | Some c' => prepend [c'] (scanstring r1)
              | None => None
              end
        end
      else if Str.code c <? 32 then None
      else prepend [c] (scanstring r)
  end.

(** The number pattern of the decoder: an optional minus sign; a zero, or
    a digit from 1 to 9 and any digits; optionally a dot and at least one
    digit; optionally an [e] or [E], an optional sign and at least one
    digit.  The lexeme matched at the start of the input and the rest. *)
Definition isdigit (c : ascii) : bool := (48 <=? Str.code c) && (Str.code c <=? 57).

Fixpoint digits (s : str) : str * str :=
  match s with
  | c :: r => if isdigit c then let '(d, r') := digits r in (c :: d, r') else ([], s)
  | [] => ([], [])
  end.

Definition match_int (s : str) : option (str * str) :=
  match s with
  | c :: r =>
      if Ascii.eqb c "0" then Some ([c], r)
      else if isdigit c then let '(d, r') := digits r in Some (c :: d, r')
      else None
  | [] => None
  end.

Definition match_frac (s : str) : str * str :=
  match s with
  | c :: r =>
      if Ascii.eqb c "." then
        match digits r with
        | ([], _) => ([], s)
        | (d, r') => (c :: d, r')
        end
      else ([], s)
  | [] => ([], s)
  end.

Definition match_exp (s : str) : str * str :=
  match s with
  | e :: r =>
      if Ascii.eqb e "e" || Ascii.eqb e "E" then
        let '(sign, r1) :=
          match r with
          | c :: r' =>
              if Ascii.eqb c "-" || Ascii.eqb c "+" then ([c], r') else ([], r)
          | [] => ([], r)
          end in
        match digits r1 with
        | ([], _) => ([], s)
        | (d, r2) => (e :: sign ++ d, r2)
        end
      else ([], s)
  | [] => ([], s)
  end.

Definition match_number (s : str) : option (str * str) :=
  let '(sign, s1) :=
    match s with
    | c :: r => if Ascii.eqb c "-" then ([c], r) else ([], s)
    | [] => ([], s)
    end in
  match match_int s1 with
  | None => None
  | Some (i, s2) =>
      let '(f, s3) := match_frac s2 in
      let '(e, s4) := match_exp s3 in
      Some (sign ++ i ++ f ++ e, s4)
  end.

Definition literal (w : string) (v : value) (s : str) : option (value * str) :=
  if Str.startswith (lit w) s then Some (v, skipn (length (lit w)) s) else None.

(** [scan_once], [JSONObject] and [JSONArray].  Every call consumes a
    character of the input, so the length of the input bounds the depth
    of the recursion. *)
Fixpoint scan_once (fuel : nat) (s : str) : option (value * str) :=
  match fuel with
  | O => None
  | S fuel' =>
      match s with
      | [] => None
      | c :: r =>
          if Ascii.eqb c dq then
            match scanstring r with
            | Some (v, r') => Some (String_ v, r')
            | None => None
            end
          else if Ascii.eqb c "{" then
            match skip_ws r with
            | c' :: r' =>
                if Ascii.eqb c' "}" then Some (Object [], r')
                else
                  match members fuel' (c' :: r') with
                  | Some (ms, r'') => Some (Object ms, r'')
                  | None => None
                  end
            | [] => None
            end
          else if Ascii.eqb c "[" then
            match skip_ws r with
            | c' :: r' =>
                if Ascii.eqb c' "]" then Some (Array [], r')
                else
                  match elements fuel' (c' :: r') with
                  | Some (vs, r'') => Some (Array vs, r'')
                  | None => None
                  end
            | [] => None
            end
          else if Ascii.eqb c "n" then literal "null" Null s
          else if Ascii.eqb c "t" then literal "true" (Bool true) s
          else if Ascii.eqb c "f" then literal "false" (Bool false) s
          else
            match match_number s with
            | Some (n, r') => Some (Number n, r')
            | None =>
                if Ascii.eqb c "N" then literal "NaN" (Number (lit "NaN")) s
                else if Ascii.eqb c "I" then
                  literal "Infinity" (Number (lit "Infinity")) s
                else if Ascii.eqb c "-" then
                  literal "-Infinity" (Number (lit "-Infinity")) s
                else None
            end
      end
  end

(** The members of an object, from the quote of the first key to the
    closing brace. *)
with members (fuel : nat) (s : str) : option (list (str * value) * str) :=
  match fuel with
  | O => None
  | S fuel' =>
      match s with
      | c :: r =>
          if Ascii.eqb c dq then
            match scanstring r with
            | Some (key, r1) =>
                match skip_ws r1 with
                | colon :: r2 =>
                    if Ascii.eqb colon ":" then
                      match scan_once fuel' (skip_ws r2) with
                      | Some (v, r3) =>
                          match skip_ws r3 with
                          | d :: r4 =>
                              if Ascii.eqb d "}" then Some ([(key, v)], r4)
                              else if Ascii.eqb d "," then
                                match members fuel' (skip_ws r4) with
                                | Some (ms, r5) => Some ((key, v) :: ms, r5)
                                | None => None
                                end
                              else None
                          | [] => None
                          end
                      | None => None
                      end
                    else None
                | [] => None
                end
            | None => None
            end
          else None
      | [] => None
      end
  end

(** The items of an array, from the first item to the closing bracket. *)
with elements (fuel : nat) (s : str) : option (list value * str) :=
  match fuel with
  | O => None
  | S fuel' =>
      match scan_once fuel' s with
      | Some (v, r1) =>
          match skip_ws r1 with
          | d :: r2 =>
              if Ascii.eqb d "]" then Some ([v], r2)
              else if Ascii.eqb d "," then
                match elements fuel' (skip_ws r2) with
                | Some (vs, r3) => Some (v :: vs, r3)
                | None => None
                end
              else None
          | [] => None
          end
      | None => None
      end
  end.

(** [json.loads(s)]; [None] stands for the [JSONDecodeError] it raises:
    on a byte order mark, on a malformed document and on data after the
    document. *)
Definition loads (s : str) : option value :=
  if Str.startswith ["239"%char; "187"%char; "191"%char] s then None
  else
    match scan_once (S (length s)) (skip_ws s) with
    | Some (v, r) =>
        match skip_ws r with
        | [] => Some v
        | _ :: _ => None
        end
    | None => None
    end.

(** [d.get(key, default)] on the [dict] of an object. *)
Fixpoint get (key : str) (ms : list (str * value)) (default : value) : value :=
  match ms with
  | [] => default
  | (k, v) :: ms' =>
      if decide (k = key) then get key ms' v else get key ms' default
  end.

End Json.

(* ===================================================================== *)
(** * Exceptions and the file system *)
(* ===================================================================== *)

Inductive exn := IndexError | OSError | JSONDecodeError | AttributeError.

(** How a call ends. *)
Inductive completion (A : Type) :=
| Returns (a : A)
| Raises (e : exn).
Arguments Returns {A} a.
Arguments Raises {A} e.

(** [try: body except Exception: handler] *)
Definition try_except {A} (body : completion A) (handler : exn -> completion A)
  : completion A :=
  match body with
  | Returns a => Returns a
  | Raises e => handler e
  end.

(** How the body of a loop over mutable variables ends: the variables as
    they are when the body completes, or as they are when it raises. *)
Inductive outcome (S : Type) :=
| Normal (s : S)
| Raised (e : exn) (s : S).
Arguments Normal {S} s.
Arguments Raised {S} e s.

(** [for x in xs: body] *)
Fixpoint for_each {S A} (body : A -> S -> outcome S) (xs : list A) (st : S)
  : outcome S :=
  match xs with
  | [] => Normal st
  | x :: xs' =>
      match body x st with
      | Normal st' => for_each body xs' st'
      | Raised e st' => Raised e st'
      end
  end.

Module FS.

(** A path names a regular file with its text, or something that exists
    and cannot be opened as a file (a directory, a file the user has no
    right to read or write). *)
Inductive node :=
| File (text : str)
| Locked.

(** [path.exists()] *)
Definition exists_ (fs : gmap str node) (path : str) : bool :=
  match fs !! path with
  | Some _ => true
  | None => false
  end.

(** [path.read_text(...)] *)
Definition read_text (fs : gmap str node) (path : str) : completion str :=
  match fs !! path with
  | Some (File text) => Returns text
  | _ => Raises OSError
  end.

(** [path.write_text(text, ...)]: the file is created or replaced. *)
Definition write_text (fs : gmap str node) (path : str) (text : str)
  : completion (gmap str node) :=
  match fs !! path with
  | Some Locked => Raises OSError
  | _ => Returns (<[path := File text]> fs)
  end.

(** [with open(path, "a") as f: f.write(text)]: the file is created when
    it is missing, and the text is added at its end. *)
Definition append_text (fs : gmap str node) (path : str) (text : str)
  : completion (gmap str node) :=
  match fs !! path with
  | Some Locked => Raises OSError
  | Some (File old) => Returns (<[path := File (old ++ text)]> fs)
  | None => Returns (<[path := File text]> fs)
  end.

(** [directory / name] of [pathlib], on the strings of the paths: an
    absolute [name] replaces the directory. *)
Definition join (directory name : str) : str :=
  if Str.startswith (lit "/") name then name
  else directory ++ lit "/" ++ name.

End FS.

(* ===================================================================== *)
(** * [SshHostEntry] *)
(* ===================================================================== *)

Record SshHostEntry := {
  host_alias : str;
  options : gmap str str
}.

(** The truth value of a string: it is not empty. *)
Definition truthy (s : str) : bool :=
  match s with
  | [] => false
  | _ :: _ => true
  end.

Definition getDisplayLine (self : SshHostEntry) : str :=
  let host_name := default [] (options self !! lit "hostname") in
  let user_name := default [] (options self !! lit "user") in
  let port := default [] (options self !! lit "port") in
  let left := host_alias self in
  let right_parts : list str := [] in
  let right_parts :=
    if truthy user_name && truthy host_name then
      right_parts ++ [user_name ++ lit "@" ++ host_name]
    else if truthy host_name then right_parts ++ [host_name]
    else right_parts in
  let right_parts :=
    if truthy port then right_parts ++ [lit ":" ++ port] else right_parts in
  let right :=
    match right_parts with
    | [] => lit "(kein Hostname)"
    | _ :: _ => Str.join [] right_parts
    end in
  left ++ lit "  (" ++ right ++ lit ")".

(** The right part of the label in the words of the specification, an
    option being present when it is bound to a string that is not empty:
    the user, an at sign and the host name when both are present, the host
    name alone when only it is present, then a colon and the port when the
    port is present, and the placeholder when this leaves nothing. *)
Definition present (e : SshHostEntry) (key : str) : option str :=
  match options e !! key with
  | Some v => if truthy v then Some v else None
  | None => None
  end.

Definition spec_right (e : SshHostEntry) : str :=
  let built :=
    match present e (lit "user"), present e (lit "hostname") with
    | Some u, Some h => u ++ lit "@" ++ h
    | None, Some h => h
    | _, None => []
    end
    ++ match present e (lit "port") with
       | Some p => lit ":" ++ p
       | None => []
       end in
  match built with
  | [] => lit "(kein Hostname)"
  | _ :: _ => built
  end.

(* ===================================================================== *)
(** * [SshConfigParser] *)
(* ===================================================================== *)

Module SshConfigParser.

(** The variables of the loop of [parseFile]. *)
Record vars := {
  entries : list SshHostEntry;
  current_entry : option SshHostEntry
}.

(** [line.lower().startswith("host ")] *)
Definition is_host_line (line : str) : bool :=
  Str.startswith (lit "host ") (Str.lower line).

(** [xs[i]] *)
Definition index {A} (xs : list A) (i : nat) : completion A :=
  match nth_error xs i with
  | Some x => Returns x
  | None => Raises IndexError
  end.

(** The body of the loop, for one [raw_line]. *)
Definition parse_line (raw_line : str) (st : vars) : outcome vars :=
  let line := Str.strip raw_line in
  if negb (truthy line) || Str.startswith (lit "#") line then Normal st
  else if is_host_line line then
    let st :=
      match current_entry st with
      | Some e => {| entries := entries st ++ [e];
                     current_entry := current_entry st |}
      | None => st
      end in
    match index (Str.split_max1 line) 1 with
    | Raises e => Raised e st
    | Returns rest =>
        let host_aliases := Str.strip rest in
        match index (Str.split host_aliases) 0 with
        | Raises e => Raised e st
        | Returns first_token =>
            Normal {| entries := entries st;
                      current_entry :=
                        Some {| host_alias := first_token; options := ∅ |} |}
        end
    end
  else
    match current_entry st with
    | None => Normal st
    | Some e =>
        match Str.split_max1 line with
        | [part0; part1] =>
            let key := Str.lower (Str.strip part0) in
            let value := Str.strip_chars [Json.dq] (Str.strip part1) in
            Normal {| entries := entries st;
                      current_entry :=
                        Some {| host_alias := host_alias e;
                                options := <[key := value]> (options e) |} |}
        | _ => Normal st
        end
    end.

(** The loop over the lines, what follows it in the [try] block, and the
    handler: when the loop raises, the entries appended so far are kept
    and the entry in progress is not appended. *)
Definition collect_lines (lines : list str) : list SshHostEntry :=
  match for_each parse_line lines
          {| entries := []; current_entry := None |} with
  | Normal st =>
      match current_entry st with
      | Some e => entries st ++ [e]
      | None => entries st
      end
  | Raised _ st => entries st
  end.

Definition collect (text : str) : list SshHostEntry :=
  collect_lines (Str.splitlines text).

(** [any(ch in entry.host_alias for ch in ["*", "?", "!"])] *)
Definition is_pattern (entry : SshHostEntry) : bool :=
  existsb (fun ch => Str.contains ch (host_alias entry))
          [lit "*"; lit "?"; lit "!"].

(** The last loop: the entries whose alias is not a pattern. *)
Definition filtered (entries : list SshHostEntry) : list SshHostEntry :=
  List.filter (fun entry => negb (is_pattern entry)) entries.

(** What [parseFile] makes of the lines, and of the text, of a
    configuration file. *)
Definition parse_lines (lines : list str) : list SshHostEntry :=
  filtered (collect_lines lines).

Definition parse (text : str) : list SshHostEntry :=
  filtered (collect text).

(** A line with a tab after [Host]. *)
Definition tab_line : str := lit "Host" ++ ["009"%char] ++ lit "web".

(** The Host lines of the specification: the token [Host], in any case,
    followed by a white space character. *)
Definition spec_host_line (line : str) : bool :=
  match Str.lower line with
  | h :: o :: s :: t :: c :: _ =>
      bool_decide ([h; o; s; t] = lit "host") && Str.isspace c
  | _ => false
  end.

Definition parseFile (fs : gmap str FS.node) (config_path : str)
  : completion (list SshHostEntry) :=
  if negb (FS.exists_ fs config_path) then Returns []
  else
    let entries :=
      match FS.read_text fs config_path with
      | Returns text => collect text
      | Raises _ => []
      end in
    Returns (filtered entries).

End SshConfigParser.

(* ===================================================================== *)
(** * [SshGui]: notes, the identity file of a host, the session log *)
(* ===================================================================== *)

Module SshGui.

(** The attributes of the window that the methods below read. *)
Record gui := {
  config_path : str;
  notes_dir_path : str;
  session_logs_dir_path : str;
  selected_entry : option SshHostEntry
}.

(** ** Notes *)

Definition getHostHash (entry : SshHostEntry) : str :=
  let identifier := default (host_alias entry) (options entry !! lit "hostname") in
  firstn 12 (MD5.hexdigest identifier).

Definition getNotesPath (self : gui) (entry : SshHostEntry) : str :=
  let host_hash := getHostHash entry in
  FS.join (notes_dir_path self) (host_hash ++ lit ".json").

(** [data.get("notes", "")], where [data] is what [json.loads] returned:
    only a [dict] has the method. *)
Definition data_get (data : Json.value) (key : str) (default : Json.value)
  : completion Json.value :=
  match data with
  | Json.Object members => Returns (Json.get key members default)
  | _ => Raises AttributeError
  end.

Definition json_loads (text : str) : completion Json.value :=
  match Json.loads text with
  | Some v => Returns v
  | None => Raises JSONDecodeError
  end.

Definition loadNotes (self : gui) (fs : gmap str FS.node) (entry : SshHostEntry)
  : completion Json.value :=
  let notes_file := getNotesPath self entry in
  if negb (FS.exists_ fs notes_file) then Returns (Json.String_ [])
  else
    try_except
      (match FS.read_text fs notes_file with
       | Raises e => Raises e
       | Returns text =>
           match json_loads text with
           | Raises e => Raises e
           | Returns data => data_get data (lit "notes") (Json.String_ [])
           end
       end)
      (fun _ => Returns (Json.String_ [])).

(** The file system after the call; when the write raises, an error
    dialog is shown and the file system is as before. *)
Definition saveNotes (self : gui) (fs : gmap str FS.node) (entry : SshHostEntry)
           (notes : str) : completion (gmap str FS.node) :=
  let notes_file := getNotesPath self entry in
  try_except
    (let data :=
       [ (lit "host_alias", host_alias entry);
         (lit "hostname", default [] (options entry !! lit "hostname"));
         (lit "notes", notes);
         (lit "hash", getHostHash entry) ] in
     FS.write_text fs notes_file (Json.dumps data))
    (fun _ => Returns fs).

(** ** The identity file of a host *)

(** The variables of the loop of [addKeyToConfig]. *)
Record vars := {
  new_lines : list str;
  in_target_host : bool;
  identity_added : bool
}.

(** [line.strip().lower().startswith('host ')] *)
Definition is_host_line (line : str) : bool :=
  Str.startswith (lit "host ") (Str.lower (Str.strip line)).

Definition identity_line (key_path : str) : str :=
  lit "  IdentityFile " ++ key_path.

(** The body of the loop, for one [line]. *)
Definition add_line (alias key_path : str) (st : vars) (line : str) : vars :=
  let st := {| new_lines := new_lines st ++ [line];
               in_target_host := in_target_host st;
               identity_added := identity_added st |} in
  if is_host_line line && Str.contains alias line then
    {| new_lines := new_lines st;
       in_target_host := true;
       identity_added := identity_added st |}
  else if in_target_host st && is_host_line line then
    {| new_lines := new_lines st;
       in_target_host := false;
       identity_added := identity_added st |}
  else if in_target_host st && negb (identity_added st)
          && truthy (Str.strip line)
          && negb (Str.startswith (lit "#") (Str.strip line)) then
    {| new_lines := new_lines st ++ [identity_line key_path];
       in_target_host := in_target_host st;
       identity_added := true |}
  else st.

(** The loop over the lines. *)
Definition add_lines (alias key_path : str) (lines : list str) : vars :=
  fold_left (add_line alias key_path) lines
    {| new_lines := []; in_target_host := false; identity_added := false |}.

(** From the text of the configuration to the text that is written and
    the flag that says whether it is written. *)
Definition addIdentityFile (config_content alias key_path : str) : str * bool :=
  let lines := Str.split_on "010" config_content in
  let st := add_lines alias key_path lines in
  (Str.join ["010"%char] (new_lines st), identity_added st).

(** The blocks in the words of the specification.  A position is in the
    target block when the nearest Host line before it contains the alias;
    a directive line is a line that is not blank, not a comment and not a
    Host line.  [target_from] is the same from a position that is in the
    target block or not, as [b] says. *)
Definition target_from (alias : str) (b : bool) (before : list str) : bool :=
  match find is_host_line (rev before) with
  | Some h => Str.contains alias h
  | None => b
  end.

Definition in_target (alias : str) (before : list str) : bool :=
  target_from alias false before.

Definition is_directive (line : str) : bool :=
  truthy (Str.strip line) && negb (Str.startswith (lit "#") (Str.strip line))
  && negb (is_host_line line).

(** The file system after the call; the status line and the reload of
    the entries are left out. *)
Definition addKeyToConfig (self : gui) (fs : gmap str FS.node)
           (entry : SshHostEntry) (key_path : str)
  : completion (gmap str FS.node) :=
  try_except
    (match FS.read_text fs (config_path self) with
     | Raises e => Raises e
     | Returns config_content =>
         let '(text, added) :=
           addIdentityFile config_content (host_alias entry) key_path in
         if added then FS.write_text fs (config_path self) text
         else Returns fs
     end)
    (fun _ => Returns fs).

(** ** The session log *)

(** What [datetime.now()] returned. *)
Record datetime := {
  year : nat; month : nat; day : nat;
  hour : nat; minute : nat; second : nat
}.

Definition digit (n : nat) : ascii := ascii_of_nat (48 + n mod 10).

Definition two_digits (n : nat) : str := [digit (n / 10); digit n].

Definition four_digits (n : nat) : str :=
  [digit (n / 1000); digit (n / 100); digit (n / 10); digit n].

(** [now.strftime("%Y-%m-%d %H:%M:%S")] *)
Definition strftime (now : datetime) : str :=
  four_digits (year now) ++ lit "-" ++ two_digits (month now) ++ lit "-"
  ++ two_digits (day now) ++ lit " " ++ two_digits (hour now) ++ lit ":"
  ++ two_digits (minute now) ++ lit ":" ++ two_digits (second now).

(** [self.selected_entry.options.get(key, default) if self.selected_entry
    else default] *)
Definition selected_option (self : gui) (key default_ : str) : str :=
  match selected_entry self with
  | Some entry => default default_ (options entry !! key)
  | None => default_
  end.

Definition log_entry (self : gui) (now : datetime) (connection_type : str)
           (success : bool) : str :=
  let timestamp := strftime now in
  let host_name := selected_option self (lit "hostname") (lit "N/A") in
  let user_name := selected_option self (lit "user") (lit "N/A") in
  let port := selected_option self (lit "port") (lit "22") in
  let status := if success then lit "✓ Erfolg" else lit "✗ Fehler" in
  lit "[" ++ timestamp ++ lit "] " ++ connection_type ++ lit " (" ++ status
  ++ lit ") | user@host: " ++ user_name ++ lit "@" ++ host_name ++ lit ":"
  ++ port ++ ["010"%char].

(** The file system after the call, [now] being the time of the call;
    when the log file cannot be opened, a message is printed and the
    file system is as before. *)
Definition logSession (self : gui) (fs : gmap str FS.node) (now : datetime)
           (host_alias connection_type : str) (success : bool)
  : completion (gmap str FS.node) :=
  try_except
    (let log_file :=
       FS.join (session_logs_dir_path self) (host_alias ++ lit ".log") in
     FS.append_text fs log_file (log_entry self now connection_type success))
    (fun _ => Returns fs).

(** One call of [logSession]: the entry selected in the window at that
    time, the time, the method and the outcome of the connection. *)
Record log_call := {
  call_selected : option SshHostEntry;
  call_now : datetime;
  call_type : str;
  call_success : bool
}.

Definition select (self : gui) (entry : option SshHostEntry) : gui :=
  {| config_path := config_path self;
     notes_dir_path := notes_dir_path self;
     session_logs_dir_path := session_logs_dir_path self;
     selected_entry := entry |}.

(** The calls of [logSession] for one alias, one after the other. *)
Fixpoint logSessions (self : gui) (fs : gmap str FS.node) (host_alias : str)
         (calls : list log_call) : completion (gmap str FS.node) :=
  match calls with
  | [] => Returns fs
  | c :: calls' =>
      match logSession (select self (call_selected c)) fs (call_now c)
              host_alias (call_type c) (call_success c) with
      | Returns fs' => logSessions self fs' host_alias calls'
      | Raises e => Raises e
      end
  end.

(** An option of the entry selected at a call, or what stands for it. *)
Definition call_option (c : log_call) (key default_ : str) : str :=
  match call_selected c with
  | Some entry =>
      match options entry !! key with
      | Some v => v
      | None => default_
      end
  | None => default_
  end.

End SshGui.

(* ===================================================================== *)
(** * Notions for the further properties *)
(* ===================================================================== *)

(** A line that the parser passes over wherever it stands: a blank line
    or a comment. *)
Definition passed_over (raw : str) : bool :=
  negb (truthy (Str.strip raw)) || Str.startswith (lit "#") (Str.strip raw).

(** The alias that a Host line gives its block. *)
Definition block_alias (raw : str) : str :=
  Str.first_token (skipn 4 (Str.strip raw)).

(** An alias with a star, a question mark or an exclamation mark. *)
Definition pattern_alias (alias : str) : bool :=
  SshConfigParser.is_pattern {| host_alias := alias; options := ∅ |}.

(** Two entries with the same alias and the same options, but for the
    option [identityfile]. *)
Definition same_but_identityfile (e e' : SshHostEntry) : Prop :=
  host_alias e = host_alias e' /\
  forall key, key <> lit "identityfile" -> options e !! key = options e' !! key.

(** What a line that is not a Host line binds in the entry in progress:
    the key and the value of a directive of two fields. *)
Definition directive_of (raw : str) : option (str * str) :=
  if passed_over raw then None
  else match Str.split_max1 (Str.strip raw) with
       | [part0; part1] =>
           Some (Str.lower (Str.strip part0),
                 Str.strip_chars [Json.dq] (Str.strip part1))
       | _ => None
       end.

(** Two states of the loop of the parser with such entries. *)
Definition similar (st st' : SshConfigParser.vars) : Prop :=
  Forall2 same_but_identityfile
    (SshConfigParser.entries st) (SshConfigParser.entries st') /\
  option_Forall2 same_but_identityfile
    (SshConfigParser.current_entry st) (SshConfigParser.current_entry st').

(* ===================================================================== *)
(** * The list of the hosts, the notes in the window and the keys *)
(* ===================================================================== *)

From Stdlib Require DecimalNat.

(** [str] and [int] of Python on indices, the items of a list, and the
    rows of a [ttk.Treeview].  The limit of Python on the number of digits
    of a conversion (4300) is left out: no list has so many items. *)
Module Py.

Inductive error := ValueError | IndexError | TclError.

Inductive result (A : Type) :=
| Ok (a : A)
| Error (e : error).
Arguments Ok {A} a.
Arguments Error {A} e.

Fixpoint uint_str (d : Decimal.uint) : str :=
  match d with
  | Decimal.Nil => []
  | Decimal.D0 d => "0"%char :: uint_str d
  | Decimal.D1 d => "1"%char :: uint_str d
  | Decimal.D2 d => "2"%char :: uint_str d
  | Decimal.D3 d => "3"%char :: uint_str d
  | Decimal.D4 d => "4"%char :: uint_str d
  | Decimal.D5 d => "5"%char :: uint_str d
  | Decimal.D6 d => "6"%char :: uint_str d
  | Decimal.D7 d => "7"%char :: uint_str d
  | Decimal.D8 d => "8"%char :: uint_str d
  | Decimal.D9 d => "9"%char :: uint_str d
  end.

(** [str(n)] for an index [n]: its decimal digits. *)
Definition str_ (n : nat) : str := uint_str (Nat.to_uint n).

Definition isdigit (c : ascii) : bool :=
  ((48 <=? Str.code c) && (Str.code c <=? 57))%N.

Definition digit_value (c : ascii) : nat := N.to_nat (Str.code c) - 48.

(** The value of decimal digits with single underscores between them,
    after the digits of [acc]. *)
Fixpoint digits_value (acc : nat) (s : str) : option nat :=
  match s with
  | [] => Some acc
  | c :: s' =>
      if Ascii.eqb c "_" then
        match s' with
        | d :: _ => if isdigit d then digits_value acc s' else None
        | [] => None
        end
      else if isdigit c then digits_value (10 * acc + digit_value c) s'
      else None
  end.

(** [int(s)]: white space around the number is dropped, a sign may stand
    before the digits, and the digits are ASCII digits here. *)
Definition int_ (s : str) : result Z :=
  let t := Str.strip s in
  let '(negative, body) :=
    match t with
    | c :: r =>
        if Ascii.eqb c "-" then (true, r)
        else if Ascii.eqb c "+" then (false, r)
        else (false, t)
    | [] => (false, t)
    end in
  match body with
  | c :: _ =>
      if isdigit c then
        match digits_value 0 body with
        | Some n => Ok (if negative then (- Z.of_nat n)%Z else Z.of_nat n)
        | None => Error ValueError
        end
      else Error ValueError
  | [] => Error ValueError
  end.

(** [xs[i]]: an index below zero counts from the end. *)
Definition getitem {A} (xs : list A) (i : Z) : result A :=
  let n := Z.of_nat (length xs) in
  let j := if (i <? 0)%Z then (i + n)%Z else i in
  if (0 <=? j)%Z && (j <? n)%Z then
    match xs !! Z.to_nat j with
    | Some x => Ok x
    | None => Error IndexError
    end
  else Error IndexError.

(** [enumerate(xs)] *)
Definition enumerate {A} (xs : list A) : list (nat * A) :=
  combine (seq 0 (length xs)) xs.

(** A row of the tree: its identifier, its text and its tag. *)
Record row := {
  iid : str;
  values : str;
  tags : str
}.

(** [tree.insert(parent, index, iid=..., values=..., tags=...)] at the
    end of the rows of the root: the row is put last; an identifier that
    the tree has already is an error. *)
Definition tree_insert (tree : list row) (r : row) : result (list row) :=
  if existsb (fun r' => bool_decide (iid r' = iid r)) tree then Error TclError
  else Ok (tree ++ [r]).

End Py.

(** ** [filterEntries] and [onSelectEntry] *)

(** The variables of the loop of [filterEntries]. *)
Record filter_vars := {
  tree : list Py.row;
  row_count : nat
}.

(** The text in which the search term is looked for. *)
Definition searchable (entry : SshHostEntry) : str :=
  Str.lower (host_alias entry ++ lit " "
             ++ default [] (options entry !! lit "hostname") ++ lit " "
             ++ default [] (options entry !! lit "user")).

(** The loop over [enumerate(self.entries)]. *)
Fixpoint filter_loop (search_term : str) (items : list (nat * SshHostEntry))
         (st : filter_vars) : Py.result filter_vars :=
  match items with
  | [] => Py.Ok st
  | (index, entry) :: items' =>
      if truthy search_term
         && negb (Str.contains search_term (searchable entry)) then
        filter_loop search_term items' st
      else
        let tag := if row_count st mod 2 =? 0 then lit "evenrow"
                   else lit "oddrow" in
        match Py.tree_insert (tree st)
                {| Py.iid := Py.str_ index;
                   Py.values := getDisplayLine entry;
                   Py.tags := tag |} with
        | Py.Error e => Py.Error e
        | Py.Ok t =>
            filter_loop search_term items'
              {| tree := t; row_count := row_count st + 1 |}
        end
  end.

(** The rows of the tree after the call, [search_var] being what
    [self.search_var.get()] returns; the rows that the tree had are
    deleted first.  The call ends with [clearDetails], which empties the
    fields and the notes of the window and the selection. *)
Definition filterEntries (search_var : str) (entries : list SshHostEntry)
  : Py.result (list Py.row) :=
  let search_term := Str.lower search_var in
  match filter_loop search_term (Py.enumerate entries)
          {| tree := []; row_count := 0 |} with
  | Py.Ok st => Py.Ok (tree st)
  | Py.Error e => Py.Error e
  end.

(** [self.selected_entry] after the call, [selection] being what
    [self.tree.selection()] returns. *)
Definition onSelectEntry (selection : list str) (entries : list SshHostEntry)
           (selected_entry : option SshHostEntry)
  : Py.result (option SshHostEntry) :=
  match selection with
  | [] => Py.Ok selected_entry
  | first :: _ =>
      match Py.int_ first with
      | Py.Error e => Py.Error e
      | Py.Ok index =>
          match Py.getitem entries index with
          | Py.Error e => Py.Error e
          | Py.Ok entry => Py.Ok (Some entry)
          end
      end
  end.

(** An entry that the search term does not pass over. *)
Definition shown (search_term : str) (entry : SshHostEntry) : bool :=
  negb (truthy search_term) || Str.contains search_term (searchable entry).

(** ** [saveCurrentNotes] *)

(** The file system after the call, [notes_text] being what
    [self.notes_text.get("1.0", tk.END)] returns. *)
Definition saveCurrentNotes (self : SshGui.gui) (fs : gmap str FS.node)
           (notes_text : str) : completion (gmap str FS.node) :=
  match SshGui.selected_entry self with
  | None => Returns fs
  | Some entry => SshGui.saveNotes self fs entry (Str.strip notes_text)
  end.

(** ** The key files *)

Definition getKeyFilename (key_type key_name : str) : str :=
  if truthy key_name then lit "id_" ++ key_type ++ lit "_" ++ key_name
  else lit "id_" ++ key_type.

(** The key types of the radio buttons of [KeyGenerationDialog]. *)
Definition dialog_key_types : list str :=
  [lit "ed25519"; lit "ecdsa"; lit "rsa"].

(** The clipboard after the call: [copyToClipboard] replaces what it
    holds.  The texts of the message boxes and of the status line are left
    out. *)
Definition copyPubKeyIfExists (fs : gmap str FS.node) (clipboard : str)
           (public_key_path : str) : completion str :=
  if negb (FS.exists_ fs public_key_path) then Returns clipboard
  else
    match FS.read_text fs public_key_path with
    | Raises e => Raises e
    | Returns text =>
        let pub_text := Str.strip text in
        if negb (truthy pub_text) then Returns clipboard
        else Returns pub_text
    end.

(** The loop of [copyExistingPubKey] over [possible_keys]: the first
    path that exists is the one that is copied. *)
Fixpoint copy_first (fs : gmap str FS.node) (clipboard : str)
         (possible_keys : list str) : completion str :=
  match possible_keys with
  | [] => Returns clipboard
  | pub_key_path :: rest =>
      if FS.exists_ fs pub_key_path then
        copyPubKeyIfExists fs clipboard pub_key_path
      else copy_first fs clipboard rest
  end.

(* ===================================================================== *)
(** * Facts about the string methods *)
(* ===================================================================== *)

Module StrFacts.
Import Str.

Lemma eqb_true (a b : ascii) : Ascii.eqb a b = true <-> a = b.
Proof. apply Ascii.eqb_eq. Qed.

Lemma isspace_lower_char c : isspace (lower_char c) = isspace c.
Proof. destruct c as [[] [] [] [] [] [] [] []]; reflexivity. Qed.

Lemma lower_char_space c : lower_char c = " "%char -> c = " "%char.
Proof. destruct c as [[] [] [] [] [] [] [] []]; vm_compute; congruence. Qed.


Lemma startswith_spec prefix s :
  startswith prefix s = true <-> exists rest, s = prefix ++ rest.
Proof.
  revert s. induction prefix as [|p prefix IH]; intros s; simpl.
  - split; eauto.
  - destruct s as [|c s]; simpl.
    + split; [discriminate | intros [rest H]; discriminate].
    + destruct (Ascii.eqb p c) eqn:E.
      * apply eqb_true in E. subst c. rewrite IH. split.
        -- intros [rest ->]. eauto.
        -- intros [rest H]. injection H as ->. eauto.
      * split; [discriminate |].
        intros [rest H]. injection H as -> _.
        rewrite Ascii.eqb_refl in E. discriminate.
Qed.

Lemma contains_spec sub s :
  contains sub s = true <-> exists pre post, s = pre ++ sub ++ post.
Proof.
  induction s as [|c s IH]; simpl.
  - rewrite orb_false_r, startswith_spec. split.
    + intros [rest H]. exists [], rest. exact H.
    + intros (pre & post & H). symmetry in H.
      apply app_eq_nil in H as [-> H]. apply app_eq_nil in H as [-> ->].
      exists []. reflexivity.
  - rewrite orb_true_iff, startswith_spec, IH. split.
    + intros [[rest H] | (pre & post & H)].
      * exists [], rest. exact H.
      * exists (c :: pre), post. simpl. congruence.
    + intros (pre & post & H). destruct pre as [|c' pre]; simpl in H.
      * left. eauto.
      * right. injection H as -> ->. eauto.
Qed.

Lemma contains_char c s : contains [c] s = true <-> In c s.
Proof.
  rewrite contains_spec. split.
  - intros (pre & post & ->). apply in_or_app. right. left. reflexivity.
  - intros H. apply in_split in H as (pre & post & ->). eauto.
Qed.

(** ** Stripping *)

Section Strip.
Variable p : ascii -> bool.

Lemma lstrip_by_split s :
  exists pre, s = pre ++ lstrip_by p s /\ forallb p pre = true.
Proof.
  induction s as [|c s (pre & IH & Hp)]; simpl.
  - exists []. split; reflexivity.
  - destruct (p c) eqn:E.
    + exists (c :: pre). simpl. rewrite E, Hp.
      split; [f_equal; exact IH | reflexivity].
    + exists []. split; reflexivity.
Qed.

Lemma lstrip_by_head s c r : lstrip_by p s = c :: r -> p c = false.
Proof.
  induction s as [|d s IH]; simpl; [discriminate |].
  destruct (p d) eqn:E; [exact IH |]. congruence.
Qed.

Lemma lstrip_by_id c r : p c = false -> lstrip_by p (c :: r) = c :: r.
Proof. intros H. simpl. rewrite H. reflexivity. Qed.

Lemma lstrip_by_all s : forallb p s = true -> lstrip_by p s = [].
Proof.
  induction s as [|c s IH]; simpl; [reflexivity |].
  destruct (p c); simpl; [exact IH | discriminate].
Qed.

Lemma lstrip_by_nil s : lstrip_by p s = [] -> forallb p s = true.
Proof.
  induction s as [|c s IH]; simpl; [reflexivity |].
  destruct (p c); simpl; [exact IH | discriminate].
Qed.

Lemma lstrip_by_app_l pre s :
  forallb p pre = true -> lstrip_by p (pre ++ s) = lstrip_by p s.
Proof.
  induction pre as [|c pre IH]; simpl; [reflexivity |].
  destruct (p c); simpl; [exact IH | discriminate].
Qed.

Lemma lstrip_by_app_last s c :
  p c = false -> lstrip_by p (s ++ [c]) = lstrip_by p s ++ [c].
Proof.
  intros Hc. induction s as [|d s IH]; simpl.
  - rewrite Hc. reflexivity.
  - destruct (p d); [exact IH | reflexivity].
Qed.

Lemma rstrip_by_split s :
  exists post, s = rstrip_by p s ++ post /\ forallb p post = true.
Proof.
  induction s as [|c s (post & IH & Hp)]; simpl.
  - exists []. split; reflexivity.
  - destruct (rstrip_by p s) as [|d r] eqn:E.
    + simpl in IH. subst s. destruct (p c) eqn:Ec.
      * exists (c :: post). simpl. rewrite Ec, Hp. split; reflexivity.
      * exists post. split; [reflexivity | exact Hp].
    + exists post. split; [simpl; f_equal; exact IH | exact Hp].
Qed.

Lemma rstrip_by_last s :
  rstrip_by p s = [] \/
  exists r c, rstrip_by p s = r ++ [c] /\ p c = false.
Proof.
  induction s as [|c s IH]; simpl; [left; reflexivity |].
  destruct (rstrip_by p s) as [|d r] eqn:E.
  - destruct (p c) eqn:Ec; [left; reflexivity |].
    right. exists [], c. split; [reflexivity | exact Ec].
  - right. destruct IH as [IH | (r' & z & IH & Hz)]; [discriminate |].
    exists (c :: r'), z. split; [simpl; congruence | exact Hz].
Qed.

(** A stripped string is empty, or it starts and ends with characters
    that are kept. *)
Lemma strip_by_shape s :
  strip_by p s = [] \/
  (exists c r, strip_by p s = c :: r /\ p c = false) /\
  (exists r c, strip_by p s = r ++ [c] /\ p c = false).
Proof.
  unfold strip_by.
  destruct (rstrip_by_last s) as [-> | (r & c & -> & Hc)];
    [left; reflexivity | right].
  rewrite (lstrip_by_app_last _ _ Hc). split.
  - destruct (lstrip_by p r) as [|d r'] eqn:E.
    + exists c, []. split; [reflexivity | exact Hc].
    + exists d, (r' ++ [c]). split; [reflexivity |].
      eapply lstrip_by_head; eauto.
  - eauto.
Qed.

(** What is stripped is a part of the string between characters of the
    set. *)
Lemma strip_by_split s :
  exists pre post,
    s = pre ++ strip_by p s ++ post /\
    forallb p pre = true /\ forallb p post = true.
Proof.
  destruct (rstrip_by_split s) as (post & Hs & Hpost).
  destruct (lstrip_by_split (rstrip_by p s)) as (pre & Hr & Hpre).
  exists pre, post. unfold strip_by. rewrite app_assoc, <- Hr.
  auto.
Qed.


End Strip.

Lemma strip_shape s :
  strip s = [] \/
  (exists c r, strip s = c :: r /\ isspace c = false) /\
  (exists r c, strip s = r ++ [c] /\ isspace c = false).
Proof. apply strip_by_shape. Qed.

(** ** Words *)

Lemma word_after_word s : s = word s ++ after_word s.
Proof.
  induction s as [|c s IH]; simpl; [reflexivity |].
  destruct (isspace c); simpl; [reflexivity | f_equal; exact IH].
Qed.


Lemma word_Forall s : Forall (fun c => isspace c = false) (word s).
Proof.
  induction s as [|c s IH]; simpl; [constructor |].
  destruct (isspace c) eqn:E; constructor; assumption.
Qed.

Lemma after_word_head s c r : after_word s = c :: r -> isspace c = true.
Proof.
  induction s as [|d s IH]; simpl; [discriminate |].
  destruct (isspace d) eqn:E; [| exact IH]. congruence.
Qed.

Lemma word_cons c s : isspace c = false -> word (c :: s) = c :: word s.
Proof. intros H. simpl. rewrite H. reflexivity. Qed.

Lemma word_app_space w c s :
  Forall (fun c => isspace c = false) w -> isspace c = true ->
  word (w ++ c :: s) = w.
Proof.
  intros Hw Hc. induction Hw as [|d w Hd Hw IH]; simpl.
  - rewrite Hc. reflexivity.
  - rewrite Hd. f_equal. exact IH.
Qed.

Lemma after_word_app_space w c s :
  Forall (fun c => isspace c = false) w -> isspace c = true ->
  after_word (w ++ c :: s) = c :: s.
Proof.
  intros Hw Hc. induction Hw as [|d w Hd Hw IH]; simpl.
  - rewrite Hc. reflexivity.
  - rewrite Hd. exact IH.
Qed.

Lemma word_all w :
  Forall (fun c => isspace c = false) w -> word w = w /\ after_word w = [].
Proof.
  induction 1 as [|d w Hd Hw [IH1 IH2]]; simpl; [auto |].
  rewrite Hd. split; [f_equal |]; assumption.
Qed.

(** The first word is not changed by white space added at the end. *)
Lemma word_app_spaces s post :
  forallb isspace post = true -> word (s ++ post) = word s.
Proof.
  intros H. induction s as [|c s IH]; simpl.
  - destruct post as [|d post]; simpl in *; [reflexivity |].
    apply andb_true_iff in H as [-> _]. reflexivity.
  - destruct (isspace c); [reflexivity | f_equal; exact IH].
Qed.

(** ** [split] *)

(** [split] takes the first word after the leading white space and goes
    on after it. *)
Lemma split_space c s : isspace c = true -> split (c :: s) = split s.
Proof. intros H. simpl. rewrite H. reflexivity. Qed.

Lemma split_word c s :
  isspace c = false ->
  split (c :: s) = word (c :: s) :: split (after_word (c :: s)).
Proof.
  revert c. induction s as [|d s IH]; intros c Hc.
  - simpl. rewrite Hc. reflexivity.
  - change (split (c :: d :: s)) with
      (if isspace c then split (d :: s)
       else if isspace d then [c] :: split (d :: s)
            else match split (d :: s) with
                 | w :: ws => (c :: w) :: ws
                 | [] => [[c]]
                 end).
    rewrite Hc. destruct (isspace d) eqn:Hd.
    + cbn [word after_word]. rewrite Hc, Hd. reflexivity.
    + rewrite (IH d Hd). cbn [word after_word]. rewrite Hc, Hd. reflexivity.
Qed.

Lemma split_lstrip s : split s = split (lstrip_by isspace s).
Proof.
  induction s as [|c s IH]; [reflexivity |].
  simpl lstrip_by. destruct (isspace c) eqn:E; [| reflexivity].
  rewrite split_space by exact E. exact IH.
Qed.

Lemma split_head s :
  forallb isspace s = false ->
  exists ws, split s = first_token s :: ws /\ first_token s <> [].
Proof.
  intros H. unfold first_token. rewrite split_lstrip.
  destruct (lstrip_by isspace s) as [|c r] eqn:E.
  - apply lstrip_by_nil in E. congruence.
  - pose proof (lstrip_by_head _ _ _ _ E) as Hc.
    rewrite (split_word _ _ Hc). eexists. split; [reflexivity |].
    rewrite (word_cons _ _ Hc). discriminate.
Qed.


Lemma first_token_strip s : first_token (strip s) = first_token s.
Proof.
  unfold first_token.
  destruct (strip_by_split isspace s) as (pre & post & Hs & Hpre & Hpost).
  fold (strip s) in Hs. rewrite Hs at 2.
  rewrite (lstrip_by_app_l _ _ _ Hpre).
  destruct (strip_shape s) as [-> | [(c & r & E & Hc) _]].
  - simpl. rewrite (lstrip_by_all _ _ Hpost). reflexivity.
  - rewrite E. simpl app. rewrite !(lstrip_by_id _ _ _ Hc).
    change (c :: r ++ post) with ((c :: r) ++ post).
    symmetry. apply word_app_spaces. exact Hpost.
Qed.

End StrFacts.

(* ===================================================================== *)
(** * Facts about the parser *)
(* ===================================================================== *)

Module ParserFacts.
Import Str StrFacts SshConfigParser.

(** A Host line of the parser: four characters that read [host] in lower
    case, a space, and more. *)
Lemma host_line_shape line :
  is_host_line line = true ->
  exists c1 c2 c3 c4 rest,
    line = c1 :: c2 :: c3 :: c4 :: " "%char :: rest /\
    Forall (fun c => isspace c = false) [c1; c2; c3; c4].
Proof.
  unfold is_host_line. rewrite startswith_spec. intros [r H].
  destruct line as [|c1 [|c2 [|c3 [|c4 [|c5 rest]]]]]; try discriminate.
  simpl in H. injection H as H1 H2 H3 H4 H5 _.
  apply lower_char_space in H5. subst c5.
  exists c1, c2, c3, c4, rest. split; [reflexivity |].
  repeat constructor; rewrite <- isspace_lower_char;
    [rewrite H1 | rewrite H2 | rewrite H3 | rewrite H4]; reflexivity.
Qed.

Lemma host_line_not_comment line :
  is_host_line line = true -> startswith (lit "#") line = false.
Proof.
  intros H. destruct (startswith (lit "#") line) eqn:E; [| reflexivity].
  apply startswith_spec in E as [r ->]. vm_compute in H. discriminate.
Qed.

(** In a stripped Host line something other than white space follows the
    space. *)
Lemma host_line_rest raw c1 c2 c3 c4 rest :
  strip raw = c1 :: c2 :: c3 :: c4 :: " "%char :: rest ->
  forallb isspace rest = false.
Proof.
  intros E. destruct (strip_shape raw) as [H | [_ (r & z & H & Hz)]].
  - congruence.
  - rewrite E in H. destruct (forallb isspace rest) eqn:Hall; [| reflexivity].
    exfalso.
    assert (Hz' : In z rest).
    { destruct r as [|a1 [|a2 [|a3 [|a4 [|a5 r]]]]]; simpl in H;
        try discriminate.
      - injection H as _ _ _ _ Hsp _. subst z. discriminate.
      - injection H as _ _ _ _ _ Hr. subst rest.
        apply in_or_app. right. left. reflexivity. }
    rewrite forallb_forall in Hall. rewrite (Hall z Hz') in Hz. discriminate.
Qed.

(** The two fields of a stripped Host line. *)
Lemma host_line_fields raw :
  is_host_line (strip raw) = true ->
  exists rest,
    skipn 4 (strip raw) = " "%char :: rest /\
    forallb isspace rest = false /\
    split_max1 (strip raw) = [firstn 4 (strip raw); lstrip_by isspace rest].
Proof.
  intros H. destruct (host_line_shape _ H) as (c1 & c2 & c3 & c4 & rest & E & Hw).
  pose proof (host_line_rest _ _ _ _ _ _ E) as Hrest.
  exists rest. rewrite E. split; [reflexivity |]. split; [exact Hrest |].
  unfold split_max1.
  inversion Hw as [|? ? H1 Hw1]; subst.
  rewrite (lstrip_by_id _ _ _ H1).
  change (c1 :: c2 :: c3 :: c4 :: " "%char :: rest)
    with ([c1; c2; c3; c4] ++ " "%char :: rest).
  rewrite (word_app_space _ " "%char rest Hw eq_refl).
  rewrite (after_word_app_space _ " "%char rest Hw eq_refl).
  simpl lstrip_by at 1.
  destruct (lstrip_by isspace rest) as [|d r] eqn:El.
  - apply lstrip_by_nil in El. congruence.
  - reflexivity.
Qed.

Lemma first_token_lstrip s : first_token (lstrip_by isspace s) = first_token s.
Proof.
  unfold first_token. f_equal.
  destruct (lstrip_by isspace s) as [|c r] eqn:E; [reflexivity |].
  apply lstrip_by_id. eapply lstrip_by_head; eauto.
Qed.

Lemma forallb_lstrip s :
  forallb isspace (lstrip_by isspace s) = forallb isspace s.
Proof.
  induction s as [|c s IH]; [reflexivity |]. simpl.
  destruct (isspace c) eqn:E; [exact IH |]. simpl. rewrite E. reflexivity.
Qed.

Lemma forallb_strip s : forallb isspace (strip s) = forallb isspace s.
Proof.
  destruct (strip_by_split isspace s) as (pre & post & Hs & Hpre & Hpost).
  fold (strip s) in Hs. rewrite Hs at 2.
  rewrite !forallb_app, Hpre, Hpost, andb_true_r. reflexivity.
Qed.

(** What the parser does on a Host line. *)
Lemma parse_line_host raw st :
  is_host_line (strip raw) = true ->
  parse_line raw st =
    Normal {| entries := entries st ++ option_list (current_entry st);
              current_entry :=
                Some {| host_alias := first_token (skipn 4 (strip raw));
                        options := ∅ |} |}
  /\ first_token (skipn 4 (strip raw)) <> [].
Proof.
  intros H. destruct (host_line_fields _ H) as (rest & Hskip & Hrest & Hsplit).
  assert (Hne : truthy (strip raw) = true).
  { destruct (strip raw); [discriminate | reflexivity]. }
  pose proof (host_line_not_comment _ H) as Hc.
  assert (Htok : exists ws,
             split (strip (lstrip_by isspace rest))
             = first_token (skipn 4 (strip raw)) :: ws
             /\ first_token (skipn 4 (strip raw)) <> []).
  { destruct (split_head (strip (lstrip_by isspace rest))) as (ws & E & Hn).
    - rewrite forallb_strip, forallb_lstrip. exact Hrest.
    - rewrite first_token_strip, first_token_lstrip in E, Hn.
      assert (first_token (skipn 4 (strip raw)) = first_token rest) as ->
        by (rewrite Hskip; reflexivity).
      eauto. }
  destruct Htok as (ws & Htok & Hn). split; [| exact Hn].
  unfold parse_line. rewrite Hne, Hc, H. simpl negb. simpl orb.
  rewrite Hsplit. unfold index. cbn [nth_error]. rewrite Htok.
  cbn [nth_error].
  destruct (current_entry st) as [e|]; cbn [entries current_entry option_list].
  - reflexivity.
  - rewrite app_nil_r. reflexivity.
Qed.

(** The body of the loop never raises. *)
Lemma parse_line_Normal raw st : exists st', parse_line raw st = Normal st'.
Proof.
  destruct (is_host_line (strip raw)) eqn:H.
  - destruct (parse_line_host raw st H) as [E _]. eauto.
  - unfold parse_line. rewrite H.
    destruct (negb (truthy (strip raw)) || startswith (lit "#") (strip raw));
      [eauto |].
    destruct (current_entry st); [| eauto].
    destruct (split_max1 (strip raw)) as [|p0 [|p1 [|p2 ps]]]; eauto.
Qed.

Lemma first_token_spec s :
  exists ws rest,
    s = ws ++ first_token s ++ rest /\
    forallb isspace ws = true /\
    Forall (fun c => isspace c = false) (first_token s) /\
    (rest = [] \/ exists c r, rest = c :: r /\ isspace c = true).
Proof.
  destruct (lstrip_by_split isspace s) as (ws & Hs & Hws).
  exists ws, (after_word (lstrip_by isspace s)). unfold first_token.
  split; [rewrite <- word_after_word; exact Hs |].
  split; [exact Hws |]. split; [apply word_Forall |].
  destruct (after_word (lstrip_by isspace s)) as [|c r] eqn:E; [auto |].
  right. exists c, r. split; [reflexivity |].
  eapply after_word_head; eauto.
Qed.

(** ** Fields *)

Lemma rstrip_by_app_last p s c :
  p c = false -> rstrip_by p (s ++ [c]) = s ++ [c].
Proof.
  intros Hc. induction s as [|d s IH]; simpl.
  - rewrite Hc. reflexivity.
  - rewrite IH. destruct (s ++ [c]) eqn:E; [| reflexivity].
    destruct s; discriminate.
Qed.

Lemma strip_by_id p s :
  (exists c r, s = c :: r /\ p c = false) ->
  (exists r c, s = r ++ [c] /\ p c = false) ->
  strip_by p s = s.
Proof.
  intros (c & r & E & Hc) (r' & z & E' & Hz). unfold strip_by.
  rewrite E', (rstrip_by_app_last _ _ _ Hz), <- E', E.
  apply lstrip_by_id. exact Hc.
Qed.

Lemma app_last_suffix {A} (a b r : list A) z :
  a ++ b = r ++ [z] -> b <> [] -> exists b', b = b' ++ [z].
Proof.
  intros H Hb. destruct (exists_last Hb) as (b' & y & ->).
  rewrite app_assoc in H. apply app_inj_tail in H as [_ ->]. eauto.
Qed.

Lemma split_max1_single s :
  s <> [] -> Forall (fun c => isspace c = false) s -> split_max1 s = [s].
Proof.
  intros Hne Hs. unfold split_max1.
  destruct s as [|c r]; [congruence |].
  inversion Hs as [|? ? Hc Hr]; subst.
  rewrite (lstrip_by_id _ _ _ Hc).
  destruct (word_all _ Hs) as [-> ->]. reflexivity.
Qed.

Lemma split_max1_fields key ws value :
  key <> [] -> Forall (fun c => isspace c = false) key ->
  ws <> [] -> forallb isspace ws = true ->
  (exists c r, value = c :: r /\ isspace c = false) ->
  split_max1 (key ++ ws ++ value) = [key; value].
Proof.
  intros Hk Hkey Hw Hws (c & r & -> & Hc). unfold split_max1.
  destruct key as [|k key]; [congruence |].
  inversion Hkey as [|? ? Hk1 _]; subst.
  change ((k :: key) ++ ws ++ c :: r) with (k :: key ++ ws ++ c :: r).
  rewrite (lstrip_by_id _ _ _ Hk1).
  change (k :: key ++ ws ++ c :: r) with ((k :: key) ++ ws ++ c :: r).
  destruct ws as [|w ws]; [congruence |].
  simpl in Hws. apply andb_true_iff in Hws as [Hw1 Hws].
  change ((w :: ws) ++ c :: r) with (w :: ws ++ c :: r).
  rewrite (word_app_space _ _ _ Hkey Hw1).
  rewrite (after_word_app_space _ _ _ Hkey Hw1).
  change (w :: ws ++ c :: r) with ((w :: ws) ++ c :: r).
  rewrite lstrip_by_app_l by (simpl; rewrite Hw1, Hws; reflexivity).
  rewrite (lstrip_by_id _ _ _ Hc). reflexivity.
Qed.

(** A stripped line that is not empty is one field, or a field, white
    space and a rest that starts and ends with something else. *)
Lemma line_fields line :
  (exists c r, line = c :: r /\ isspace c = false) ->
  (exists r c, line = r ++ [c] /\ isspace c = false) ->
  Forall (fun c => isspace c = false) line \/
  exists key ws value,
    line = key ++ ws ++ value /\ key <> [] /\
    Forall (fun c => isspace c = false) key /\
    ws <> [] /\ forallb isspace ws = true /\
    (exists c r, value = c :: r /\ isspace c = false) /\
    (exists r c, value = r ++ [c] /\ isspace c = false).
Proof.
  intros (c & r & E & Hc) (r' & z & E' & Hz).
  pose proof (word_after_word line) as Hline.
  destruct (after_word line) as [|d rest] eqn:Ea.
  - left. rewrite Hline, app_nil_r. apply word_Forall.
  - right.
    pose proof (after_word_head _ _ _ Ea) as Hd.
    destruct (lstrip_by_split isspace (d :: rest)) as (ws & Hws & Hall).
    assert (Hsuf : exists b', d :: rest = b' ++ [z]).
    { apply (app_last_suffix (word line) _ r'); [congruence | discriminate]. }
    destruct Hsuf as (b' & Hb').
    assert (Hv : lstrip_by isspace (d :: rest) = lstrip_by isspace b' ++ [z]).
    { rewrite Hb'. apply lstrip_by_app_last. exact Hz. }
    exists (word line), ws, (lstrip_by isspace (d :: rest)).
    split; [rewrite <- Hws; exact Hline |].
    split; [rewrite E, (word_cons _ _ Hc); discriminate |].
    split; [apply word_Forall |].
    split.
    { intros ->. cbn [app] in Hws. symmetry in Hws.
      pose proof (lstrip_by_head isspace _ _ _ Hws). congruence. }
    split; [exact Hall |].
    split.
    + destruct (lstrip_by isspace (d :: rest)) as [|v vs] eqn:El.
      * destruct (lstrip_by isspace b'); discriminate.
      * exists v, vs. split; [reflexivity |].
        eapply lstrip_by_head; eauto.
    + rewrite Hv. eauto.
Qed.

Lemma is_quote c : existsb (Ascii.eqb c) [Json.dq] = true <-> c = Json.dq.
Proof. simpl. rewrite orb_false_r. apply Ascii.eqb_eq. Qed.

(** The loop *)

Lemma for_each_app {S A} (body : A -> S -> outcome S) xs ys st :
  for_each body (xs ++ ys) st =
    match for_each body xs st with
    | Normal st' => for_each body ys st'
    | Raised e st' => Raised e st'
    end.
Proof.
  revert st. induction xs as [|x xs IH]; intros st; simpl; [reflexivity |].
  destruct (body x st); [apply IH | reflexivity].
Qed.

Lemma for_each_Normal lines st :
  exists st', for_each parse_line lines st = Normal st'.
Proof.
  revert st. induction lines as [|raw lines IH]; intros st; simpl; [eauto |].
  destruct (parse_line_Normal raw st) as [st' ->]. apply IH.
Qed.

Lemma collect_lines_Normal lines st :
  for_each parse_line lines {| entries := []; current_entry := None |}
    = Normal st ->
  collect_lines lines = entries st ++ option_list (current_entry st).
Proof.
  intros H. unfold collect_lines. rewrite H.
  destruct (current_entry st); simpl; [reflexivity |].
  rewrite app_nil_r. reflexivity.
Qed.

(** A line that is not a Host line leaves the entries as they are, and
    the alias of the entry in progress. *)
Lemma parse_line_directive raw st st' :
  is_host_line (strip raw) = false ->
  parse_line raw st = Normal st' ->
  entries st' = entries st /\
  host_alias <$> current_entry st' = host_alias <$> current_entry st.
Proof.
  intros H. unfold parse_line. rewrite H.
  destruct (negb (truthy (strip raw)) || startswith (lit "#") (strip raw)).
  { intros [= <-]. auto. }
  destruct (current_entry st) as [e|] eqn:Ec.
  2:{ intros [= <-]. rewrite Ec. auto. }
  destruct (split_max1 (strip raw)) as [|p0 [|p1 [|p2 ps]]];
    intros [= <-]; rewrite ?Ec; auto.
Qed.

Lemma for_each_directives ds st st' :
  Forall (fun d => is_host_line (strip d) = false) ds ->
  for_each parse_line ds st = Normal st' ->
  entries st' = entries st /\
  host_alias <$> current_entry st' = host_alias <$> current_entry st.
Proof.
  intros Hds. revert st. induction Hds as [|d ds Hd Hds IH]; intros st; simpl.
  - intros [= <-]. auto.
  - destruct (parse_line_Normal d st) as [s1 E]. rewrite E. intros H.
    destruct (parse_line_directive _ _ _ Hd E) as [E1 E2].
    destruct (IH _ H) as [E3 E4]. split; congruence.
Qed.

(** The entries appended before a line do not change what the line
    does. *)
Lemma parse_line_frame E raw st st' :
  parse_line raw st = Normal st' ->
  parse_line raw {| entries := E ++ entries st;
                    current_entry := current_entry st |}
  = Normal {| entries := E ++ entries st';
              current_entry := current_entry st' |}.
Proof.
  destruct (is_host_line (strip raw)) eqn:H.
  - destruct (parse_line_host raw st H) as [-> _].
    destruct (parse_line_host raw
                {| entries := E ++ entries st;
                   current_entry := current_entry st |} H) as [-> _].
    intros [= <-]. cbn [entries current_entry]. rewrite app_assoc. reflexivity.
  - unfold parse_line. rewrite H. cbn [entries current_entry].
    destruct (negb (truthy (strip raw)) || startswith (lit "#") (strip raw)).
    { intros [= <-]. reflexivity. }
    destruct (current_entry st) as [e|] eqn:Ec.
    2:{ intros [= <-]. rewrite Ec. reflexivity. }
    destruct (split_max1 (strip raw)) as [|p0 [|p1 [|p2 ps]]];
      intros [= <-]; cbn [entries current_entry]; rewrite ?Ec; reflexivity.
Qed.

Lemma for_each_frame E lines st st' :
  for_each parse_line lines st = Normal st' ->
  for_each parse_line lines {| entries := E ++ entries st;
                               current_entry := current_entry st |}
  = Normal {| entries := E ++ entries st';
              current_entry := current_entry st' |}.
Proof.
  revert st. induction lines as [|raw lines IH]; intros st; simpl.
  - intros [= <-]. reflexivity.
  - destruct (parse_line_Normal raw st) as [s1 E1]. rewrite E1.
    rewrite (parse_line_frame E _ _ _ E1). apply IH.
Qed.

(** ** The filter *)

Lemma is_pattern_spec e :
  is_pattern e = true <->
  In "*"%char (host_alias e) \/ In "?"%char (host_alias e)
  \/ In "!"%char (host_alias e).
Proof.
  unfold is_pattern. cbn [existsb lit String.list_ascii_of_string].
  rewrite orb_false_r, !orb_true_iff, !contains_char. reflexivity.
Qed.

Lemma filtered_app xs ys : filtered (xs ++ ys) = filtered xs ++ filtered ys.
Proof. apply List.filter_app. Qed.

Lemma filtered_Forall xs :
  Forall (fun e => ~ In "*"%char (host_alias e) /\ ~ In "?"%char (host_alias e)
                   /\ ~ In "!"%char (host_alias e)) (filtered xs).
Proof.
  apply List.Forall_forall. intros e He.
  apply List.filter_In in He as [_ He]. apply negb_true_iff in He.
  assert (Hn : ~ is_pattern e = true) by congruence.
  rewrite is_pattern_spec in Hn. tauto.
Qed.

(** A block whose alias is a pattern can be taken out of the lines. *)
Lemma pattern_block_dropped pre h ds post :
  is_host_line (strip h) = true ->
  is_pattern {| host_alias := first_token (skipn 4 (strip h)); options := ∅ |}
    = true ->
  Forall (fun d => is_host_line (strip d) = false) ds ->
  post = [] \/
  (exists h' rest, post = h' :: rest /\ is_host_line (strip h') = true) ->
  parse_lines (pre ++ h :: ds ++ post) = parse_lines (pre ++ post).
Proof.
  intros Hh Hpat Hds Hpost. unfold parse_lines.
  set (init := {| entries := []; current_entry := None |}).
  destruct (for_each_Normal pre init) as [s1 E1].
  destruct (parse_line_host h s1 Hh) as [E2 _].
  set (E := entries s1 ++ option_list (current_entry s1)) in *.
  set (s2 := {| entries := E; current_entry := _ |}) in E2.
  destruct (for_each_Normal ds s2) as [s3 E3].
  destruct (for_each_directives _ _ _ Hds E3) as [E3e E3c].
  cbn [s2 entries current_entry fmap option_fmap option_map] in E3e, E3c.
  destruct (current_entry s3) as [w|] eqn:Ew; [| discriminate].
  injection E3c as Hw.
  assert (Hfw : filtered [w] = []).
  { unfold filtered. cbn [List.filter].
    replace (is_pattern w) with true; [reflexivity |].
    symmetry. apply is_pattern_spec. rewrite Hw.
    apply (is_pattern_spec
             {| host_alias := first_token (skipn 4 (strip h)); options := ∅ |}).
    exact Hpat. }
  assert (Hs3 : for_each parse_line (pre ++ h :: ds) init = Normal s3).
  { rewrite for_each_app, E1. cbn [for_each]. rewrite E2. exact E3. }
  destruct Hpost as [-> | (h' & rest & -> & Hh')].
  - rewrite !app_nil_r.
    rewrite (collect_lines_Normal _ _ Hs3), (collect_lines_Normal _ _ E1).
    rewrite Ew, E3e. change (option_list (Some w)) with [w]. fold E.
    rewrite filtered_app, Hfw, app_nil_r. reflexivity.
  - destruct (parse_line_host h' s3 Hh') as [E4 _].
    destruct (parse_line_host h' s1 Hh') as [E4' _].
    rewrite Ew, E3e in E4. change (option_list (Some w)) with [w] in E4.
    fold E in E4'.
    set (n := {| host_alias := first_token (skipn 4 (strip h')); options := ∅ |})
      in *.
    destruct (for_each_Normal rest {| entries := []; current_entry := Some n |})
      as [s5 E5].
    pose proof (for_each_frame (E ++ [w]) _ _ _ E5) as F1.
    pose proof (for_each_frame E _ _ _ E5) as F2.
    cbn [entries current_entry] in F1, F2. rewrite !app_nil_r in F1, F2.
    assert (G1 : for_each parse_line (pre ++ h :: ds ++ h' :: rest) init
                 = Normal {| entries := (E ++ [w]) ++ entries s5;
                             current_entry := current_entry s5 |}).
    { replace (pre ++ h :: ds ++ h' :: rest)
        with ((pre ++ h :: ds) ++ h' :: rest)
        by (rewrite <- app_assoc; reflexivity).
      rewrite for_each_app, Hs3. cbn [for_each]. rewrite E4. exact F1. }
    assert (G2 : for_each parse_line (pre ++ h' :: rest) init
                 = Normal {| entries := E ++ entries s5;
                             current_entry := current_entry s5 |}).
    { rewrite for_each_app, E1. cbn [for_each]. rewrite E4'. exact F2. }
    rewrite (collect_lines_Normal _ _ G1), (collect_lines_Normal _ _ G2).
    cbn [entries current_entry].
    rewrite !filtered_app, Hfw, app_nil_r. reflexivity.
Qed.

End ParserFacts.

(* ===================================================================== *)
(** * The parser: the properties of the specification *)
(* ===================================================================== *)

Section ParserProperties.
Import Str StrFacts SshConfigParser ParserFacts.

(** The example of the specification: one block with two directives. *)
Example parse_one_block :
  match parse (lit "Host foo" ++ ["010"%char] ++ lit "  HostName example.com"
               ++ ["010"%char] ++ lit "  User bob" ++ ["010"%char]) with
  | [e] =>
      host_alias e = lit "foo" /\
      options e !! lit "hostname" = Some (lit "example.com") /\
      options e !! lit "user" = Some (lit "bob") /\
      size (options e) = 2
  | _ => False
  end.
Proof. vm_compute. repeat split; reflexivity. Qed.










End ParserProperties.

(* ===================================================================== *)
(** * The display label and the fingerprint *)
(* ===================================================================== *)

Module MD5Facts.
Import MD5.
Local Open Scope Z_scope.

Lemma le_bytes_length n x : length (le_bytes n x) = n.
Proof. unfold le_bytes. rewrite length_map, length_seq. reflexivity. Qed.

Lemma le_bytes_range n x : Forall (fun b => 0 <= b < 256) (le_bytes n x).
Proof.
  unfold le_bytes. apply List.Forall_forall. intros b Hb.
  apply in_map_iff in Hb as (i & <- & _). apply Z.mod_pos_bound. lia.
Qed.

Lemma digest_length data : length (digest data) = 16%nat.
Proof.
  unfold digest. destruct (blocks _ _ _) as [a b c d].
  rewrite !length_app, !le_bytes_length. reflexivity.
Qed.

Lemma digest_range data : Forall (fun b => 0 <= b < 256) (digest data).
Proof.
  unfold digest. destruct (blocks _ _ _) as [a b c d].
  repeat apply Forall_app_2; apply le_bytes_range.
Qed.

Lemma hex_byte_digits b :
  0 <= b < 256 -> Forall (fun c => In c hexdigits) (hex_byte b).
Proof.
  intros Hb. unfold hex_byte.
  assert (H1 : (Z.to_nat (b / 16) < 16)%nat).
  { assert (0 <= b / 16 < 16) by (split; [apply Z.div_pos | apply Z.div_lt_upper_bound]; lia).
    lia. }
  assert (H2 : (Z.to_nat (b mod 16) < 16)%nat).
  { pose proof (Z.mod_pos_bound b 16). lia. }
  constructor; [apply nth_In; exact H1 |].
  constructor; [apply nth_In; exact H2 | constructor].
Qed.

Lemma hexdigest_length data : length (hexdigest data) = 32%nat.
Proof.
  unfold hexdigest. pose proof (digest_length data) as H.
  destruct (digest data) as [|b0 [|b1 [|b2 [|b3 [|b4 [|b5 [|b6 [|b7 [|b8
    [|b9 [|b10 [|b11 [|b12 [|b13 [|b14 [|b15 [|b16 l]]]]]]]]]]]]]]]]];
    try discriminate.
  reflexivity.
Qed.

Lemma hexdigest_digits data : Forall (fun c => In c hexdigits) (hexdigest data).
Proof.
  unfold hexdigest. pose proof (digest_range data) as H.
  induction H as [|b l Hb _ IH]; cbn [flat_map]; [constructor |].
  apply Forall_app_2; [apply hex_byte_digits; exact Hb | exact IH].
Qed.

End MD5Facts.

Section EntryProperties.
Import SshGui.

(** C5, as the code has it.  The label of an entry is its alias, two
    spaces, and in parentheses the right part: the user, an at sign and
    the host name when both options are bound to strings that are not
    empty, the host name alone when only it is, then a colon and the port
    when the port is bound to a string that is not empty, and the
    placeholder [(kein Hostname)], with its own parentheses, when this
    leaves nothing.  An entry with only the port 2222 is labelled
    [alias  (:2222)] and an entry with no options
    [alias  ((kein Hostname))]. *)
Theorem getDisplayLine_label (e : SshHostEntry) (alias : str) :
  getDisplayLine e = host_alias e ++ lit "  (" ++ spec_right e ++ lit ")" /\
  getDisplayLine {| host_alias := alias;
                    options := {[ lit "port" := lit "2222" ]} |}
  = alias ++ lit "  (:2222)" /\
  getDisplayLine {| host_alias := alias; options := ∅ |}
  = alias ++ lit "  ((kein Hostname))".
Proof.
  split; [| split; reflexivity].
  unfold getDisplayLine, spec_right, present.
  destruct (options e !! lit "user") as [[|u us]|];
    destruct (options e !! lit "hostname") as [[|h hs]|];
    destruct (options e !! lit "port") as [[|p ps]|];
    cbn [default truthy andb app Str.join id]; rewrite ?app_nil_r;
    try reflexivity.
  all: destruct us; reflexivity.
Qed.

(** C5 fails on the entry without options, which the specification
    labels [alias  (kein Hostname)]: the placeholder keeps its parentheses
    inside the parentheses of the label. *)
Lemma label_without_options :
  getDisplayLine {| host_alias := lit "alias"; options := ∅ |}
  = lit "alias  ((kein Hostname))" /\
  getDisplayLine {| host_alias := lit "alias"; options := ∅ |}
  <> lit "alias  (kein Hostname)".
Proof. split; [reflexivity | discriminate]. Qed.

(** C3, as the code has it.  The fingerprint of an entry is 12 lowercase
    hexadecimal characters: the first 12 of the MD5 digest of the value of
    the option [hostname] whenever the option is present, the empty string
    included, and of the alias when the option is absent; two entries with
    the same value of [hostname] have the same fingerprint. *)
Theorem getHostHash_fingerprint (e e' : SshHostEntry) :
  length (getHostHash e) = 12 /\
  Forall (fun c => In c (lit "0123456789abcdef")) (getHostHash e) /\
  getHostHash e =
    firstn 12 (MD5.hexdigest
                 match options e !! lit "hostname" with
                 | Some hostname => hostname
                 | None => host_alias e
                 end) /\
  (is_Some (options e !! lit "hostname") ->
   options e !! lit "hostname" = options e' !! lit "hostname" ->
   getHostHash e = getHostHash e').
Proof.
  split; [| split; [| split]].
  - unfold getHostHash.
    rewrite length_firstn, MD5Facts.hexdigest_length. reflexivity.
  - unfold getHostHash. apply Forall_take. apply MD5Facts.hexdigest_digits.
  - unfold getHostHash. destruct (options e !! lit "hostname"); reflexivity.
  - intros [h Hh] Heq. unfold getHostHash. rewrite <- Heq, Hh. reflexivity.
Qed.

Lemma getHostHash_fingerprint_witness :
  let e := {| host_alias := lit "web";
              options := {[ lit "hostname" := lit "example.com" ]} |} in
  let e' := {| host_alias := lit "mirror";
               options := {[ lit "hostname" := lit "example.com" ]} |} in
  getHostHash e = lit "5ababd603b22" /\ getHostHash e = getHostHash e'.
Proof.
  intros e e'. split; [vm_compute; reflexivity |].
  apply (getHostHash_fingerprint e e').
  - exists (lit "example.com"). vm_compute. reflexivity.
  - vm_compute. reflexivity.
Defined.

(** C3 fails when the option [hostname] is bound to the empty string,
    where the specification hashes the alias: the empty string is
    hashed. *)
Lemma empty_hostname_is_hashed :
  let e := {| host_alias := lit "web"; options := {[ lit "hostname" := [] ]} |} in
  getHostHash e = firstn 12 (MD5.hexdigest []) /\
  getHostHash e = lit "d41d8cd98f00" /\
  firstn 12 (MD5.hexdigest (host_alias e)) = lit "2567a5ec9705" /\
  getHostHash e <> firstn 12 (MD5.hexdigest (host_alias e)).
Proof. vm_compute. repeat split; congruence. Qed.

End EntryProperties.

(* ===================================================================== *)
(** * The identity file of a host *)
(* ===================================================================== *)

Module MutatorFacts.
Import Str StrFacts SshGui.

Lemma split_on_cons sep s : exists l ls, split_on sep s = l :: ls.
Proof.
  induction s as [|c s (l & ls & IH)]; simpl; [eauto |].
  destruct (Ascii.eqb c sep); [eauto |]. rewrite IH. eauto.
Qed.

(** Joining the lines gives the text back. *)
Lemma join_split_on sep s : join [sep] (split_on sep s) = s.
Proof.
  induction s as [|c s IH]; [reflexivity |]. simpl.
  destruct (split_on_cons sep s) as (l & ls & E). rewrite E in *.
  destruct (Ascii.eqb c sep) eqn:Ec.
  - apply Ascii.eqb_eq in Ec. subst c.
    cbn [join app]. f_equal. exact IH.
  - destruct ls as [|l' ls]; cbn [join app] in *; f_equal; exact IH.
Qed.

Lemma find_app {A} (P : A -> bool) xs ys :
  find P (xs ++ ys) = match find P xs with
                      | Some x => Some x
                      | None => find P ys
                      end.
Proof.
  induction xs as [|x xs IH]; cbn [app find]; [reflexivity |].
  destruct (P x); [reflexivity | exact IH].
Qed.

Section Loop.
Variables alias key_path : str.

(** The flag [in_target_host] after a line and more lines. *)
Lemma target_from_cons b line before :
  target_from alias b (line :: before)
  = target_from alias (if is_host_line line then contains alias line else b) before.
Proof.
  unfold target_from. cbn [rev]. rewrite find_app.
  destruct (find is_host_line (rev before)); [reflexivity |].
  cbn [find]. destruct (is_host_line line); reflexivity.
Qed.

(** What a line does to the flag. *)
Lemma add_line_target st line :
  in_target_host (add_line alias key_path st line)
  = if is_host_line line then contains alias line else in_target_host st.
Proof.
  unfold add_line. cbn [in_target_host identity_added new_lines].
  destruct (is_host_line line), (contains alias line), (in_target_host st),
    (identity_added st), (truthy (strip line)),
    (startswith (lit "#") (strip line)); reflexivity.
Qed.

(** After the insertion the lines are copied. *)
Lemma add_lines_added lines st :
  identity_added st = true ->
  fold_left (add_line alias key_path) lines st
  = {| new_lines := new_lines st ++ lines;
       in_target_host := target_from alias (in_target_host st) lines;
       identity_added := true |}.
Proof.
  revert st. induction lines as [|line lines IH]; intros st Ha.
  - cbn. rewrite app_nil_r. destruct st; cbn in *. congruence.
  - cbn [fold_left].
    assert (Hn : new_lines (add_line alias key_path st line) = new_lines st ++ [line]
                 /\ identity_added (add_line alias key_path st line) = true).
    { unfold add_line. cbn [in_target_host identity_added new_lines]. rewrite Ha.
      destruct (is_host_line line), (contains alias line), (in_target_host st);
        cbn; auto. }
    destruct Hn as [Hn Ha']. rewrite (IH _ Ha'), Hn, add_line_target.
    rewrite target_from_cons, <- app_assoc. reflexivity.
Qed.

(** A line at which nothing is inserted is copied. *)
Lemma add_line_copy st line :
  identity_added st = false ->
  in_target_host st && is_directive line = false ->
  add_line alias key_path st line
  = {| new_lines := new_lines st ++ [line];
       in_target_host :=
         if is_host_line line then contains alias line else in_target_host st;
       identity_added := false |}.
Proof.
  intros Ha Hd. unfold add_line, is_directive in *.
  cbn [in_target_host identity_added new_lines]. rewrite Ha.
  destruct (is_host_line line), (contains alias line), (in_target_host st),
    (truthy (strip line)), (startswith (lit "#") (strip line));
    cbn in *; congruence.
Qed.

(** The line at which the identity file is inserted. *)
Lemma add_line_insert st line :
  identity_added st = false ->
  in_target_host st = true -> is_directive line = true ->
  add_line alias key_path st line
  = {| new_lines := new_lines st ++ [line; identity_line key_path];
       in_target_host := true;
       identity_added := true |}.
Proof.
  intros Ha Ht Hd. unfold add_line, is_directive in *.
  cbn [in_target_host identity_added new_lines]. rewrite Ha, Ht.
  destruct (is_host_line line), (truthy (strip line)),
    (startswith (lit "#") (strip line)); cbn in *; try discriminate.
  rewrite <- app_assoc. reflexivity.
Qed.

(** Lines before the first directive line of a target block are copied. *)
Lemma add_lines_copy lines st :
  identity_added st = false ->
  (forall pre d post,
      lines = pre ++ d :: post ->
      target_from alias (in_target_host st) pre && is_directive d = false) ->
  fold_left (add_line alias key_path) lines st
  = {| new_lines := new_lines st ++ lines;
       in_target_host := target_from alias (in_target_host st) lines;
       identity_added := false |}.
Proof.
  revert st. induction lines as [|line lines IH]; intros st Ha Hno.
  - cbn. rewrite app_nil_r. destruct st; cbn in *. congruence.
  - cbn [fold_left].
    rewrite (add_line_copy st line Ha (Hno [] line lines eq_refl)).
    rewrite IH; cbn [new_lines in_target_host identity_added].
    + rewrite target_from_cons, <- app_assoc. reflexivity.
    + reflexivity.
    + intros pre d post ->. rewrite <- target_from_cons.
      apply (Hno (line :: pre) d post). reflexivity.
Qed.

End Loop.

(** The loop when no directive line is in a target block. *)
Lemma add_lines_none alias key_path lines :
  (forall pre d post,
      lines = pre ++ d :: post ->
      in_target alias pre && is_directive d = false) ->
  new_lines (add_lines alias key_path lines) = lines /\
  identity_added (add_lines alias key_path lines) = false.
Proof.
  intros Hno. unfold add_lines.
  rewrite add_lines_copy; [split; reflexivity | reflexivity | exact Hno].
Qed.

(** The loop when [d] is the first directive line in a target block. *)
Lemma add_lines_first alias key_path pre d post :
  in_target alias pre = true -> is_directive d = true ->
  (forall pre' d' post',
      pre = pre' ++ d' :: post' ->
      in_target alias pre' && is_directive d' = false) ->
  new_lines (add_lines alias key_path (pre ++ d :: post))
  = pre ++ d :: identity_line key_path :: post /\
  identity_added (add_lines alias key_path (pre ++ d :: post)) = true.
Proof.
  intros Ht Hd Hno. unfold add_lines. rewrite fold_left_app.
  rewrite (add_lines_copy alias key_path pre); [| reflexivity | exact Hno].
  cbn [fold_left]. rewrite add_line_insert; [| reflexivity | exact Ht | exact Hd].
  rewrite add_lines_added by reflexivity.
  cbn [new_lines in_target_host identity_added].
  split; [| reflexivity].
  rewrite <- !app_assoc. reflexivity.
Qed.

(** A list has a first position with a property of the position, or
    none. *)
Lemma snoc_split {A} (l : list A) x pre d post :
  l ++ [x] = pre ++ d :: post ->
  (post = [] /\ pre = l /\ d = x) \/
  (exists post', post = post' ++ [x] /\ l = pre ++ d :: post').
Proof.
  intros H. destruct (list_eq_nil_dec post) as [-> | Hne].
  - left. apply app_inj_tail in H as [-> ->]. auto.
  - right. destruct (exists_last Hne) as (post' & y & ->).
    change (pre ++ d :: post' ++ [y]) with (pre ++ (d :: post') ++ [y]) in H.
    rewrite app_assoc in H. apply app_inj_tail in H as [-> ->]. eauto.
Qed.

Lemma first_or_none {A} (Q : list A -> A -> bool) (lines : list A) :
  (exists pre d post,
      lines = pre ++ d :: post /\ Q pre d = true /\
      forall pre' d' post', pre = pre' ++ d' :: post' -> Q pre' d' = false)
  \/ (forall pre d post, lines = pre ++ d :: post -> Q pre d = false).
Proof.
  induction lines as [|x l IH] using rev_ind.
  - right. intros pre d post H. destruct pre; discriminate.
  - destruct IH as [(pre & d & post & -> & HQ & Hfirst) | Hnone].
    + left. exists pre, d, (post ++ [x]).
      rewrite <- app_assoc. auto.
    + destruct (Q l x) eqn:HQ.
      * left. exists l, x, []. auto.
      * right. intros pre d post H.
        apply snoc_split in H as [(-> & -> & ->) | (post' & -> & ->)];
          [exact HQ | eapply Hnone; reflexivity].
Qed.

(** [addKeyToConfig] writes the new text when a line was inserted, and
    nothing otherwise. *)
Lemma addKeyToConfig_writes self fs entry key_path config_content :
  fs !! config_path self = Some (FS.File config_content) ->
  addKeyToConfig self fs entry key_path
  = Returns
      (if snd (addIdentityFile config_content (host_alias entry) key_path)
       then <[config_path self :=
                FS.File (fst (addIdentityFile config_content (host_alias entry)
                                key_path))]> fs
       else fs).
Proof.
  intros H. unfold addKeyToConfig, try_except, FS.read_text, FS.write_text.
  rewrite H.
  destruct (addIdentityFile config_content (host_alias entry) key_path)
    as [text [|]]; reflexivity.
Qed.

End MutatorFacts.

Section MutatorProperties.
Import Str StrFacts SshGui MutatorFacts.



(** C10.  The text that [addIdentityFile] returns is the text it is given
    when the flag is false, and the text it is given with one line, the
    identity file line, put between two of its lines when the flag is
    true: the lines of the input are all there, as they were and in their
    order, whatever the alias. *)
Theorem addIdentityFile_frame (config alias key_path : str) :
  let lines := split_on "010" config in
  let result := addIdentityFile config alias key_path in
  (snd result = false /\ fst result = config)
  \/
  (snd result = true /\
   exists pre post,
     lines = pre ++ post /\ pre <> [] /\
     fst result
     = join ["010"%char] (pre ++ (lit "  IdentityFile " ++ key_path) :: post)).
Proof.
  intros lines result. unfold result, addIdentityFile. fold lines.
  destruct (first_or_none (fun pre d => in_target alias pre && is_directive d) lines)
    as [(pre & d & post & Hl & HQ & Hfirst) | Hnone].
  - right. apply andb_true_iff in HQ as [Ht Hd]. rewrite Hl.
    destruct (add_lines_first alias key_path pre d post Ht Hd Hfirst) as [-> ->].
    cbn [fst snd]. split; [reflexivity |].
    exists (pre ++ [d]), post. rewrite <- !app_assoc.
    split; [reflexivity |]. split; [| reflexivity].
    destruct pre; discriminate.
  - left. destruct (add_lines_none alias key_path lines Hnone) as [-> ->].
    cbn [fst snd]. split; [reflexivity |]. apply join_split_on.
Qed.

End MutatorProperties.

(* ===================================================================== *)
(** * The session log *)
(* ===================================================================== *)

Module LogFacts.
Import SshGui.

Lemma digit_not_nl n : digit n <> "010"%char.
Proof.
  unfold digit. pose proof (Nat.mod_upper_bound n 10 ltac:(lia)) as H.
  destruct (n mod 10) as [|[|[|[|[|[|[|[|[|[|k]]]]]]]]]];
    try (vm_compute; discriminate).
  lia.
Qed.

Lemma count_cons_digit n (s : str) :
  count_occ ascii_dec (digit n :: s) "010"%char
  = count_occ ascii_dec s "010"%char.
Proof. apply count_occ_cons_neq. apply digit_not_nl. Qed.

Lemma strftime_no_nl now : count_occ ascii_dec (strftime now) "010"%char = 0.
Proof.
  unfold strftime, four_digits, two_digits.
  cbn [app lit String.list_ascii_of_string].
  repeat (rewrite count_cons_digit
          || rewrite count_occ_cons_neq by discriminate).
  reflexivity.
Qed.

End LogFacts.

Section LogProperties.
Import SshGui LogFacts.



End LogProperties.

(* ===================================================================== *)
(** * The notes *)
(* ===================================================================== *)

Module JsonFacts.
Import Json.

(** Decoding undoes the escape of a character. *)
Lemma scanstring_escape_char c t :
  scanstring (escape_char c ++ t) = prepend [c] (scanstring t).
Proof. destruct c as [[] [] [] [] [] [] [] []]; reflexivity. Qed.

Lemma scanstring_escape s rest :
  scanstring (flat_map escape_char s ++ dq :: rest) = Some (s, rest).
Proof.
  induction s as [|c s IH]; [reflexivity |].
  cbn [flat_map]. rewrite <- app_assoc, scanstring_escape_char, IH. reflexivity.
Qed.

(** The text of a member, character by character. *)
Lemma encode_member_app k v t :
  encode_member (k, v) ++ t
  = dq :: flat_map escape_char k
       ++ dq :: ":"%char :: " "%char :: dq :: flat_map escape_char v ++ dq :: t.
Proof.
  unfold encode_member, encode_string. cbn [fst snd lit String.list_ascii_of_string].
  cbn [app]. rewrite <- !app_assoc. cbn [app]. f_equal. f_equal.
  rewrite <- !app_assoc. reflexivity.
Qed.

Lemma skip_ws_keep c t : is_ws c = false -> skip_ws (c :: t) = c :: t.
Proof. intros H. unfold skip_ws. cbn [Str.lstrip_by]. rewrite H. reflexivity. Qed.

Lemma skip_ws_drop c t : is_ws c = true -> skip_ws (c :: t) = skip_ws t.
Proof. intros H. unfold skip_ws. cbn [Str.lstrip_by]. rewrite H. reflexivity. Qed.

Lemma scan_once_string fuel v t :
  scan_once (S fuel) (dq :: flat_map escape_char v ++ dq :: t)
  = Some (String_ v, t).
Proof. cbn [scan_once]. rewrite Ascii.eqb_refl, scanstring_escape. reflexivity. Qed.

(** One member, and what the decoder does after it. *)
Lemma members_step fuel k v t :
  members (S (S fuel)) (encode_member (k, v) ++ t)
  = match skip_ws t with
    | d :: r4 =>
        if Ascii.eqb d "}" then Some ([(k, String_ v)], r4)
        else if Ascii.eqb d "," then
          match members (S fuel) (skip_ws r4) with
          | Some (ms, r5) => Some ((k, String_ v) :: ms, r5)
          | None => None
          end
        else None
    | [] => None
    end.
Proof.
  rewrite encode_member_app. cbn [members].
  rewrite Ascii.eqb_refl, scanstring_escape.
  rewrite (skip_ws_keep ":"%char) by reflexivity.
  rewrite Ascii.eqb_refl.
  rewrite (skip_ws_drop " "%char) by reflexivity.
  rewrite (skip_ws_keep dq) by reflexivity.
  rewrite scan_once_string. reflexivity.
Qed.

Lemma join_members_head kv d t :
  exists t', Str.join separator (map encode_member (kv :: d)) ++ t = dq :: t'.
Proof.
  destruct kv as [k v]. destruct d as [|kv' d].
  - cbn [map Str.join]. rewrite encode_member_app. eauto.
  - change (Str.join separator (map encode_member ((k, v) :: kv' :: d)))
      with (encode_member (k, v)
            ++ separator ++ Str.join separator (map encode_member (kv' :: d))).
    rewrite <- !app_assoc, encode_member_app. eauto.
Qed.

(** The decoder reads the members that the encoder wrote. *)
Lemma members_join d fuel rest :
  d <> [] -> length d < fuel ->
  members fuel (Str.join separator (map encode_member d) ++ closing ++ rest)
  = Some (as_strings d, rest).
Proof.
  revert fuel. induction d as [|[k v] d IH]; intros fuel Hne Hfuel; [congruence |].
  destruct fuel as [|[|fuel]]; cbn [length] in Hfuel; try lia.
  destruct d as [|kv' d].
  - cbn [map Str.join]. rewrite members_step. reflexivity.
  - change (Str.join separator (map encode_member ((k, v) :: kv' :: d)))
      with (encode_member (k, v)
            ++ separator ++ Str.join separator (map encode_member (kv' :: d))).
    rewrite <- !app_assoc, members_step.
    destruct (join_members_head kv' d (closing ++ rest)) as [t' Ht].
    change (skip_ws (separator
                     ++ Str.join separator (map encode_member (kv' :: d))
                     ++ closing ++ rest))
      with (","%char :: "010"%char :: " "%char :: " "%char
            :: Str.join separator (map encode_member (kv' :: d))
               ++ closing ++ rest).
    cbn [Ascii.eqb Bool.eqb].
    rewrite !skip_ws_drop by reflexivity.
    rewrite Ht, (skip_ws_keep dq) by reflexivity. rewrite <- Ht.
    rewrite (IH (S fuel)) by (discriminate || (cbn [length] in *; lia)).
    reflexivity.
Qed.

Lemma join_members_length d :
  length d <= length (Str.join separator (map encode_member d)).
Proof.
  induction d as [|[k v] d IH]; [reflexivity |].
  destruct d as [|kv' d].
  - cbn [map Str.join].
    rewrite <- (app_nil_r (encode_member (k, v))), encode_member_app.
    cbn [length]. lia.
  - change (Str.join separator (map encode_member ((k, v) :: kv' :: d)))
      with (encode_member (k, v)
            ++ separator ++ Str.join separator (map encode_member (kv' :: d))).
    rewrite !length_app. change (length separator) with 4.
    cbn [length] in *. lia.
Qed.

(** Decoding what was encoded gives the items back, as strings. *)
Lemma loads_dumps d : loads (dumps d) = Some (Object (as_strings d)).
Proof.
  destruct d as [|kv d]; [reflexivity |].
  unfold dumps, loads.
  change (lit "{" ++ ["010"%char] ++ lit "  "
          ++ Str.join (lit "," ++ ["010"%char] ++ lit "  ")
               (map encode_member (kv :: d)) ++ ["010"%char] ++ lit "}")
    with ("{"%char :: "010"%char :: " "%char :: " "%char
          :: Str.join separator (map encode_member (kv :: d)) ++ closing ++ []).
  cbn [Str.startswith Ascii.eqb Bool.eqb].
  rewrite (skip_ws_keep "{"%char) by reflexivity.
  cbn [scan_once length]. cbn [Ascii.eqb Bool.eqb].
  rewrite !skip_ws_drop by reflexivity.
  destruct (join_members_head kv d (closing ++ [])) as [t' Ht].
  rewrite Ht, (skip_ws_keep dq) by reflexivity.
  replace (Ascii.eqb dq "}") with false by reflexivity.
  rewrite <- Ht, members_join.
  - reflexivity.
  - discriminate.
  - rewrite length_app. pose proof (join_members_length (kv :: d)). lia.
Qed.

End JsonFacts.

Section NoteProperties.
Import SshGui JsonFacts.



End NoteProperties.

(* ===================================================================== *)
(** * Further properties of the parser *)
(* ===================================================================== *)

Module ParserMore.
Import Str StrFacts SshConfigParser ParserFacts.

(** The aliases collected, from any state of the loop. *)
Lemma for_each_aliases lines st st' :
  for_each parse_line lines st = Normal st' ->
  host_alias <$> (entries st' ++ option_list (current_entry st'))
  = (host_alias <$> (entries st ++ option_list (current_entry st)))
    ++ (block_alias <$> List.filter (fun raw => is_host_line (strip raw)) lines).
Proof.
  revert st. induction lines as [|raw lines IH]; intros st.
  - intros [= <-]. cbn [List.filter fmap list_fmap]. rewrite app_nil_r. reflexivity.
  - cbn [for_each List.filter]. destruct (parse_line_Normal raw st) as [s1 E1].
    rewrite E1. intros H. rewrite (IH _ H). clear IH H.
    destruct (is_host_line (strip raw)) eqn:Hh.
    + destruct (parse_line_host raw st Hh) as [E _]. rewrite E in E1.
      injection E1 as <-. cbn [entries current_entry].
      change (option_list (Some ?e)) with [e].
      rewrite !fmap_app. cbn [fmap list_fmap host_alias].
      rewrite <- !app_assoc. reflexivity.
    + destruct (parse_line_directive _ _ _ Hh E1) as [Ee Ec].
      rewrite Ee, !fmap_app. f_equal. f_equal.
      destruct (current_entry s1), (current_entry st); cbn in *; congruence.
Qed.

Lemma filtered_aliases es :
  host_alias <$> filtered es
  = List.filter (fun a => negb (pattern_alias a)) (host_alias <$> es).
Proof.
  induction es as [|e es IH]; [reflexivity |].
  cbn [filtered List.filter fmap list_fmap].
  change (pattern_alias (host_alias e)) with (is_pattern e).
  destruct (is_pattern e); cbn [negb fmap list_fmap]; [exact IH |].
  f_equal. exact IH.
Qed.

(** Lines that are passed over change no state of the loop. *)
Lemma parse_line_passed_over raw st :
  passed_over raw = true -> parse_line raw st = Normal st.
Proof. unfold passed_over, parse_line. intros ->. reflexivity. Qed.

Lemma for_each_without_passed_over lines st :
  for_each parse_line (List.filter (fun raw => negb (passed_over raw)) lines) st
  = for_each parse_line lines st.
Proof.
  revert st. induction lines as [|raw lines IH]; intros st; [reflexivity |].
  cbn [List.filter for_each]. destruct (passed_over raw) eqn:E; cbn [negb].
  - rewrite (parse_line_passed_over _ _ E). apply IH.
  - cbn [for_each]. destruct (parse_line raw st); [apply IH | reflexivity].
Qed.

(** Lines before the first Host line change no state without an entry in
    progress. *)
Lemma for_each_before_first_host pre E :
  Forall (fun raw => is_host_line (strip raw) = false) pre ->
  for_each parse_line pre {| entries := E; current_entry := None |}
  = Normal {| entries := E; current_entry := None |}.
Proof.
  intros Hpre.
  destruct (for_each_Normal pre {| entries := E; current_entry := None |})
    as [st' H].
  destruct (for_each_directives _ _ _ Hpre H) as [He Hc].
  rewrite H. destruct st' as [E' [c|]]; cbn in *; [discriminate |]. congruence.
Qed.

(** ** What holds of every entry *)

Lemma isupper_lower_char c : isupper (lower_char c) = false.
Proof. destruct c as [[] [] [] [] [] [] [] []]; reflexivity. Qed.

Lemma split_max1_first s p0 p1 :
  split_max1 s = [p0; p1] ->
  p0 <> [] /\ Forall (fun c => isspace c = false) p0.
Proof.
  unfold split_max1. destruct (lstrip_by isspace s) as [|c r] eqn:E; [discriminate |].
  pose proof (lstrip_by_head _ _ _ _ E) as Hc.
  destruct (lstrip_by isspace (after_word (c :: r))); [discriminate |].
  intros H. assert (p0 = word (c :: r)) as -> by congruence.
  split; [rewrite (word_cons _ _ Hc); discriminate |].
  apply word_Forall.
Qed.

Lemma strip_word w :
  w <> [] -> Forall (fun c => isspace c = false) w -> strip w = w.
Proof.
  intros Hne Hw. apply strip_by_id.
  - destruct w as [|c r]; [congruence |]. inversion Hw; subst. eauto.
  - destruct (exists_last Hne) as (r & z & ->).
    apply Forall_app in Hw as [_ Hz]. inversion Hz; subst. eauto.
Qed.

(** What a line that is not a Host line does to the entry in progress. *)
Lemma parse_line_option raw st st' e :
  is_host_line (strip raw) = false ->
  parse_line raw st = Normal st' ->
  current_entry st = Some e ->
  entries st' = entries st /\
  (current_entry st' = Some e \/
   exists part0 part1,
     split_max1 (strip raw) = [part0; part1] /\
     current_entry st'
     = Some {| host_alias := host_alias e;
               options := <[lower (strip part0)
                            := strip_chars [Json.dq] (strip part1)]> (options e) |}).
Proof.
  intros Hh. unfold parse_line. rewrite Hh. intros H Hc. rewrite Hc in H.
  destruct (negb (truthy (strip raw)) || startswith (lit "#") (strip raw)).
  { injection H as <-. auto. }
  destruct (split_max1 (strip raw)) as [|p0 [|p1 [|p2 ps]]];
    injection H as <-; cbn [entries current_entry];
    (split; [reflexivity |]);
    first [left; assumption | right; eexists _, _; split; reflexivity].
Qed.

Section Invariant.
Variable P : SshHostEntry -> Prop.
Hypothesis P_fresh :
  forall raw, is_host_line (strip raw) = true ->
              P {| host_alias := block_alias raw; options := ∅ |}.
Hypothesis P_option :
  forall e part0 part1,
    P e -> part0 <> [] -> Forall (fun c => isspace c = false) part0 ->
    P {| host_alias := host_alias e;
         options := <[lower (strip part0)
                      := strip_chars [Json.dq] (strip part1)]> (options e) |}.

Lemma parse_line_invariant raw st st' :
  parse_line raw st = Normal st' ->
  Forall P (entries st) -> (forall e, current_entry st = Some e -> P e) ->
  Forall P (entries st') /\ (forall e, current_entry st' = Some e -> P e).
Proof.
  intros H HE Hc. destruct (is_host_line (strip raw)) eqn:Hh.
  - destruct (parse_line_host raw st Hh) as [E _]. rewrite E in H.
    injection H as <-. cbn [entries current_entry]. split.
    + apply Forall_app. split; [exact HE |].
      destruct (current_entry st) as [e|]; [| constructor].
      constructor; [apply Hc; reflexivity | constructor].
    + intros e [= <-]. apply P_fresh. exact Hh.
  - destruct (current_entry st) as [e|] eqn:Ec.
    + destruct (parse_line_option _ _ _ _ Hh H Ec)
        as [-> [-> | (p0 & p1 & Hs & ->)]]; (split; [exact HE |]).
      * exact Hc.
      * intros e' [= <-]. destruct (split_max1_first _ _ _ Hs) as [Hn Hw].
        apply P_option; auto.
    + destruct (parse_line_directive _ _ _ Hh H) as [-> Ha]. split; [exact HE |].
      rewrite Ec in Ha. destruct (current_entry st'); [discriminate |].
      intros e [=].
Qed.

Lemma collect_lines_invariant lines : Forall P (collect_lines lines).
Proof.
  assert (Hgen : forall st st',
             for_each parse_line lines st = Normal st' ->
             Forall P (entries st) -> (forall e, current_entry st = Some e -> P e) ->
             Forall P (entries st') /\ (forall e, current_entry st' = Some e -> P e)).
  { induction lines as [|raw lines IH]; intros st st'; cbn [for_each].
    - intros [= <-]. auto.
    - destruct (parse_line_Normal raw st) as [s1 E1]. rewrite E1. intros H HE Hc.
      destruct (parse_line_invariant _ _ _ E1 HE Hc) as [HE1 Hc1].
      apply (IH _ _ H HE1 Hc1). }
  destruct (for_each_Normal lines {| entries := []; current_entry := None |})
    as [st H].
  rewrite (collect_lines_Normal _ _ H).
  destruct (Hgen _ _ H) as [HE Hc]; [constructor | intros e [=] |].
  apply Forall_app. split; [exact HE |].
  destruct (current_entry st) as [e|]; [| constructor].
  constructor; [apply Hc; reflexivity | constructor].
Qed.

End Invariant.

Lemma filtered_incl (P : SshHostEntry -> Prop) es :
  Forall P es -> Forall P (filtered es).
Proof.
  intros H. apply List.Forall_forall. intros e He.
  apply List.filter_In in He as [He _].
  rewrite List.Forall_forall in H. apply H. exact He.
Qed.

End ParserMore.

Section ParserMoreProperties.
Import Str StrFacts SshConfigParser ParserFacts ParserMore.






End ParserMoreProperties.

(* ===================================================================== *)
(** * The identity file of a host and the parser *)
(* ===================================================================== *)

Module MutatorParser.
Import Str StrFacts SshConfigParser ParserFacts ParserMore.
Import (notations) SshGui.

(** ** [splitlines] and the line feed *)

Lemma splitlines_cons_break c s :
  islinebreak c = true ->
  splitlines (c :: s)
  = match s with
    | d :: s' =>
        if Ascii.eqb c "013" && Ascii.eqb d "010" then [] :: splitlines s'
        else [] :: splitlines s
    | [] => [[]]
    end.
Proof.
  intros H. cbn [splitlines]. rewrite H.
  destruct c as [[] [] [] [] [] [] [] []]; try discriminate H;
    destruct s as [|[[] [] [] [] [] [] [] []] s]; reflexivity.
Qed.

Lemma splitlines_cons_other c s :
  islinebreak c = false ->
  splitlines (c :: s)
  = match splitlines s with
    | l :: ls => (c :: l) :: ls
    | [] => [[c]]
    end.
Proof. intros H. cbn [splitlines]. rewrite H. reflexivity. Qed.

Lemma splitlines_nil s : splitlines s = [] -> s = [].
Proof.
  destruct s as [|c s]; [reflexivity |].
  destruct (islinebreak c) eqn:Hc.
  - rewrite (splitlines_cons_break _ _ Hc). destruct s as [|d s]; [discriminate |].
    destruct (Ascii.eqb c "013" && Ascii.eqb d "010"); discriminate.
  - rewrite (splitlines_cons_other _ _ Hc). destruct (splitlines s); discriminate.
Qed.

(** A line feed ends a line, whatever stands before it. *)
Lemma splitlines_app_lf a b :
  splitlines (a ++ "010"%char :: b)
  = splitlines (a ++ ["010"%char]) ++ splitlines b.
Proof.
  remember (length a) as n eqn:Hn. revert a Hn.
  induction n as [n IH] using lt_wf_ind. intros a ->.
  destruct a as [|c a]; [reflexivity |].
  cbn [app]. destruct (islinebreak c) eqn:Hc.
  - rewrite !(splitlines_cons_break _ _ Hc).
    destruct a as [|d a]; cbn [app].
    + destruct (Ascii.eqb c "013"); reflexivity.
    + destruct (Ascii.eqb c "013" && Ascii.eqb d "010"); cbn [app]; f_equal.
      * apply (IH (length a) ltac:(cbn; lia) a eq_refl).
      * apply (IH (length (d :: a)) ltac:(cbn; lia) (d :: a) eq_refl).
  - rewrite !(splitlines_cons_other _ _ Hc).
    rewrite (IH (length a) ltac:(cbn; lia) a eq_refl).
    destruct (splitlines (a ++ ["010"%char])) as [|l ls] eqn:E.
    + apply splitlines_nil in E. destruct a; discriminate.
    + reflexivity.
Qed.

(** A string without line boundaries is one line. *)
Lemma splitlines_one x :
  Forall (fun c => islinebreak c = false) x ->
  splitlines (x ++ ["010"%char]) = [x] /\ (x <> [] -> splitlines x = [x]).
Proof.
  induction 1 as [|c x Hc Hx [IH1 IH2]].
  - split; [reflexivity | congruence].
  - cbn [app]. rewrite !(splitlines_cons_other _ _ Hc), IH1. split; [reflexivity |].
    intros _. destruct x as [|d x]; [reflexivity |].
    rewrite IH2 by discriminate. reflexivity.
Qed.

(** A line feed at the end adds nothing, or one empty line. *)
Lemma splitlines_snoc_lf s :
  splitlines (s ++ ["010"%char]) = splitlines s \/
  splitlines (s ++ ["010"%char]) = splitlines s ++ [[]].
Proof.
  remember (length s) as n eqn:Hn. revert s Hn.
  induction n as [n IH] using lt_wf_ind. intros s ->.
  destruct s as [|c s]; [right; reflexivity |].
  cbn [app]. destruct (islinebreak c) eqn:Hc.
  - rewrite !(splitlines_cons_break _ _ Hc).
    destruct s as [|d s]; cbn [app].
    + destruct (Ascii.eqb c "013") eqn:E; cbn [andb]; [left | right]; reflexivity.
    + destruct (Ascii.eqb c "013" && Ascii.eqb d "010").
      * destruct (IH (length s) ltac:(cbn; lia) s eq_refl) as [-> | ->]; auto.
      * destruct (IH (length (d :: s)) ltac:(cbn; lia) (d :: s) eq_refl)
          as [H | H]; cbn [app] in H; rewrite H; auto.
  - rewrite !(splitlines_cons_other _ _ Hc).
    destruct (IH (length s) ltac:(cbn; lia) s eq_refl) as [-> | ->]; [auto |].
    destruct (splitlines s) as [|l ls]; [| auto].
    (* [s] is empty: the line feed ends the line of [c] *)
    left. reflexivity.
Qed.

(** ** Lines that are not Host lines, uniformly *)

Lemma parse_line_directive_of raw st :
  is_host_line (strip raw) = false ->
  parse_line raw st
  = Normal match directive_of raw, current_entry st with
           | Some (key, value), Some e =>
               {| entries := entries st;
                  current_entry :=
                    Some {| host_alias := host_alias e;
                            options := <[key := value]> (options e) |} |}
           | _, _ => st
           end.
Proof.
  intros Hh. unfold parse_line, directive_of, passed_over. rewrite Hh.
  destruct (negb (truthy (strip raw)) || startswith (lit "#") (strip raw));
    [reflexivity |].
  destruct (current_entry st) as [e|].
  - destruct (split_max1 (strip raw)) as [|p0 [|p1 [|p2 ps]]]; reflexivity.
  - destruct (split_max1 (strip raw)) as [|p0 [|p1 [|p2 ps]]]; reflexivity.
Qed.

(** ** The line that is inserted *)

Lemma identity_line_strip key_path :
  exists r post,
    strip (SshGui.identity_line key_path) = "I"%char :: r /\
    "I"%char :: r ++ post = lit "IdentityFile " ++ key_path /\
    forallb isspace post = true.
Proof.
  destruct (strip_by_split isspace (SshGui.identity_line key_path))
    as (pre & post & Hs & Hpre & Hpost).
  fold (strip (SshGui.identity_line key_path)) in Hs.
  destruct (strip_shape (SshGui.identity_line key_path))
    as [E | [(c & r & E & Hc) _]].
  - exfalso. rewrite E in Hs. cbn [app] in Hs.
    assert (Hall : forallb isspace (SshGui.identity_line key_path) = true).
    { rewrite Hs, forallb_app, Hpre, Hpost. reflexivity. }
    unfold SshGui.identity_line in Hall. rewrite forallb_app in Hall.
    apply andb_true_iff in Hall as [Hall _]. vm_compute in Hall. discriminate.
  - rewrite E in Hs. unfold SshGui.identity_line in Hs.
    cbn [lit String.list_ascii_of_string app] in Hs.
    destruct pre as [|p1 [|p2 [|p3 pre]]]; cbn [app forallb] in Hs, Hpre.
    + exfalso. injection Hs as Hc' _. subst c. discriminate.
    + exfalso. injection Hs as _ Hc' _. subst c. discriminate.
    + injection Hs as _ _ Hc' Hs. subst c.
      exists r, post. rewrite E. cbn [lit String.list_ascii_of_string app].
      rewrite <- Hs. auto.
    + exfalso. injection Hs as _ _ Hp _. subst p3. cbn in Hpre.
      rewrite !andb_false_r in Hpre. discriminate.
Qed.

Lemma identity_line_directive key_path :
  is_host_line (strip (SshGui.identity_line key_path)) = false /\
  forall key value,
    directive_of (SshGui.identity_line key_path) = Some (key, value) ->
    key = lit "identityfile".
Proof.
  destruct (identity_line_strip key_path) as (r & post & Hs & Hk & Hpost).
  split.
  - rewrite Hs. reflexivity.
  - intros key value. unfold directive_of.
    destruct (passed_over (SshGui.identity_line key_path)); [discriminate |].
    destruct (split_max1 (strip (SshGui.identity_line key_path)))
      as [|p0 [|p1 [|p2 ps]]] eqn:E; try discriminate.
    intros [= <- _].
    assert (Hp0 : p0 = lit "IdentityFile"); [| rewrite Hp0; reflexivity].
    unfold split_max1 in E. rewrite Hs in E.
    rewrite (lstrip_by_id isspace "I"%char _ eq_refl) in E.
    destruct (lstrip_by isspace (after_word ("I"%char :: r)));
      [discriminate |].
    assert (Hw : p0 = word ("I"%char :: r)) by congruence.
    rewrite Hw, <- (word_app_spaces ("I"%char :: r) post Hpost).
    cbn [app]. rewrite Hk.
    change (lit "IdentityFile " ++ key_path)
      with (lit "IdentityFile" ++ " "%char :: key_path).
    apply word_app_space; [| reflexivity].
    repeat constructor.
Qed.

(** ** The simulation *)

Lemma same_but_identityfile_refl e : same_but_identityfile e e.
Proof. split; reflexivity. Qed.

Lemma similar_refl st : similar st st.
Proof.
  split.
  - induction (entries st); constructor; auto using same_but_identityfile_refl.
  - destruct (current_entry st); constructor. apply same_but_identityfile_refl.
Qed.

Lemma similar_option_list c c' :
  option_Forall2 same_but_identityfile c c' ->
  Forall2 same_but_identityfile (option_list c) (option_list c').
Proof.
  intros [e e' H|]; [| constructor].
  constructor; [exact H | constructor].
Qed.

(** The same line on both sides. *)
Lemma parse_line_similar raw st st' s1 s1' :
  similar st st' ->
  parse_line raw st = Normal s1 -> parse_line raw st' = Normal s1' ->
  similar s1 s1'.
Proof.
  intros [HE Hc]. destruct (is_host_line (strip raw)) eqn:Hh.
  - destruct (parse_line_host raw st Hh) as [-> _].
    destruct (parse_line_host raw st' Hh) as [-> _].
    intros [= <-] [= <-]. split; cbn [entries current_entry].
    + apply Forall2_app; [exact HE | apply similar_option_list; exact Hc].
    + constructor. apply same_but_identityfile_refl.
  - rewrite !(parse_line_directive_of _ _ Hh). intros [= <-] [= <-].
    destruct (directive_of raw) as [[key value]|]; [| split; assumption].
    destruct (current_entry st) as [e|] eqn:Ec,
             (current_entry st') as [e'|] eqn:Ec';
      inversion Hc as [? ? [Ha Ho]|]; subst;
      [| split; [assumption | rewrite Ec, Ec'; constructor]].
    split; cbn [entries current_entry]; [exact HE |].
    constructor. split; [exact Ha |]. cbn [options]. intros k Hk.
    destruct (decide (key = k)) as [-> | Hne].
    + rewrite !lookup_insert_eq. reflexivity.
    + rewrite !lookup_insert_ne by exact Hne. apply Ho. exact Hk.
Qed.

Lemma for_each_similar lines st st' s1 s1' :
  similar st st' ->
  for_each parse_line lines st = Normal s1 ->
  for_each parse_line lines st' = Normal s1' ->
  similar s1 s1'.
Proof.
  revert st st'. induction lines as [|raw lines IH]; intros st st' Hs; cbn [for_each].
  - intros [= <-] [= <-]. exact Hs.
  - destruct (parse_line_Normal raw st) as [t E]. rewrite E.
    destruct (parse_line_Normal raw st') as [t' E']. rewrite E'.
    apply IH. eapply parse_line_similar; eauto.
Qed.

(** A line more on one side: a line that is passed over, or the line
    of an identity file. *)
Lemma parse_line_extra key_path x st st' s1' :
  passed_over x = true \/ x = SshGui.identity_line key_path ->
  similar st st' ->
  parse_line x st' = Normal s1' ->
  similar st s1'.
Proof.
  intros [Hx | ->] [HE Hc].
  - rewrite (parse_line_passed_over _ _ Hx). intros [= <-]. split; assumption.
  - destruct (identity_line_directive key_path) as [Hh Hkey].
    rewrite (parse_line_directive_of _ _ Hh). intros [= <-].
    destruct (directive_of (SshGui.identity_line key_path)) as [[key value]|] eqn:E;
      [| split; assumption].
    specialize (Hkey _ _ eq_refl). subst key.
    destruct (current_entry st) as [e|] eqn:Ec,
             (current_entry st') as [e'|] eqn:Ec';
      inversion Hc as [? ? [Ha Ho]|]; subst;
      [| split; [assumption | rewrite Ec, Ec'; constructor]].
    split; cbn [entries current_entry]; [exact HE |]. rewrite Ec.
    constructor. split; [exact Ha |]. cbn [options]. intros k Hk.
    rewrite lookup_insert_ne by congruence. apply Ho. exact Hk.
Qed.

Lemma for_each_extra key_path extra st st' s1' :
  Forall (fun x => passed_over x = true \/ x = SshGui.identity_line key_path)
         extra ->
  similar st st' ->
  for_each parse_line extra st' = Normal s1' ->
  similar st s1'.
Proof.
  intros Hx. revert st'. induction Hx as [|x extra Hx _ IH]; intros st' Hs;
    cbn [for_each].
  - intros [= <-]. exact Hs.
  - destruct (parse_line_Normal x st') as [t' E']. rewrite E'.
    apply IH. eapply parse_line_extra; eauto.
Qed.

Lemma filtered_similar es es' :
  Forall2 same_but_identityfile es es' ->
  Forall2 same_but_identityfile (filtered es) (filtered es').
Proof.
  induction 1 as [|e e' es es' [Ha Ho] _ IH]; [constructor |].
  cbn [filtered List.filter].
  assert (Hp : is_pattern e = is_pattern e').
  { unfold is_pattern. rewrite Ha. reflexivity. }
  rewrite Hp. destruct (is_pattern e'); cbn [negb]; [exact IH |].
  constructor; [split; assumption | exact IH].
Qed.

(** Lines more between the lines do not change the entries, but for
    the option [identityfile]. *)
Lemma parse_lines_extra key_path before extra after :
  Forall (fun x => passed_over x = true \/ x = SshGui.identity_line key_path)
         extra ->
  Forall2 same_but_identityfile
    (parse_lines (before ++ after)) (parse_lines (before ++ extra ++ after)).
Proof.
  intros Hx. unfold parse_lines. apply filtered_similar.
  set (init := {| entries := []; current_entry := None |}).
  destruct (for_each_Normal (before ++ after) init) as [s H].
  destruct (for_each_Normal (before ++ extra ++ after) init) as [s' H'].
  rewrite (collect_lines_Normal _ _ H), (collect_lines_Normal _ _ H').
  rewrite for_each_app in H. rewrite for_each_app in H'.
  destruct (for_each_Normal before init) as [s1 E1]. rewrite E1 in H, H'.
  cbv beta iota in H, H'. rewrite for_each_app in H'.
  destruct (for_each_Normal extra s1) as [s2 E2]. rewrite E2 in H'.
  cbv beta iota in H'.
  assert (Hs : similar s s').
  { eapply for_each_similar; [| exact H | exact H'].
    eapply for_each_extra; [exact Hx | apply similar_refl | exact E2]. }
  destruct Hs as [HE Hc].
  apply Forall2_app; [exact HE | apply similar_option_list; exact Hc].
Qed.

(** ** The texts *)

Lemma join_app sep (A B : list str) :
  A <> [] -> B <> [] -> join sep (A ++ B) = join sep A ++ sep ++ join sep B.
Proof.
  intros HA HB. induction A as [|a A IH]; [congruence |].
  destruct A as [|a' A].
  - destruct B; [congruence | reflexivity].
  - change (join sep ((a :: a' :: A) ++ B))
      with (a ++ sep ++ join sep ((a' :: A) ++ B)).
    rewrite IH by discriminate.
    change (join sep (a :: a' :: A)) with (a ++ sep ++ join sep (a' :: A)).
    rewrite <- !app_assoc. reflexivity.
Qed.

(** The lines that the parser sees after a line is put after the lines
    [A] of a text. *)
Lemma splitlines_inserted x (A B : list str) :
  A <> [] -> x <> [] -> Forall (fun c => islinebreak c = false) x ->
  exists before extra after,
    splitlines (join ["010"%char] (A ++ B)) = before ++ after /\
    splitlines (join ["010"%char] (A ++ x :: B)) = before ++ extra ++ after /\
    Forall (fun y => passed_over y = true \/ y = x) extra.
Proof.
  intros HA Hx Hnl. destruct (splitlines_one x Hnl) as [H1 H2].
  destruct B as [|b B].
  - rewrite app_nil_r, join_app by (assumption || discriminate).
    cbn [join app].
    rewrite (splitlines_app_lf (join ["010"%char] A) x), (H2 Hx).
    destruct (splitlines_snoc_lf (join ["010"%char] A)) as [-> | ->].
    + exists (splitlines (join ["010"%char] A)), [x], [].
      rewrite !app_nil_r. split; [reflexivity |]. split; [reflexivity |].
      constructor; [right; reflexivity | constructor].
    + exists (splitlines (join ["010"%char] A)), [[]; x], [].
      rewrite !app_nil_r, <- !app_assoc. split; [reflexivity |].
      split; [reflexivity |].
      constructor; [left; reflexivity |].
      constructor; [right; reflexivity | constructor].
  - rewrite !join_app by (assumption || discriminate).
    change (join ["010"%char] (x :: b :: B))
      with (x ++ ["010"%char] ++ join ["010"%char] (b :: B)).
    cbn [app].
    rewrite (splitlines_app_lf (join ["010"%char] A)
               (x ++ "010"%char :: join ["010"%char] (b :: B))).
    rewrite (splitlines_app_lf x (join ["010"%char] (b :: B))), H1.
    rewrite (splitlines_app_lf (join ["010"%char] A)
               (join ["010"%char] (b :: B))).
    exists (splitlines (join ["010"%char] A ++ ["010"%char])), [x],
      (splitlines (join ["010"%char] (b :: B))).
    split; [reflexivity |]. split; [reflexivity |].
    constructor; [right; reflexivity | constructor].
Qed.

End MutatorParser.

Section MutatorParserProperties.
Import Str StrFacts SshConfigParser ParserFacts ParserMore MutatorParser.



End MutatorParserProperties.

(* ===================================================================== *)
(** * Further properties of the notes and of the writers *)
(* ===================================================================== *)

Section NoteMoreProperties.
Import SshGui JsonFacts.

(** X5.  The notes are kept by fingerprint, not by alias.  After
    [saveNotes] for an entry, [loadNotes] returns the same notes for every
    entry with the same fingerprint: entries with the same value of
    [hostname], and an entry without [hostname] whose alias is the
    [hostname] of the other.  For an entry with another note file
    [loadNotes] returns what it returned before.  A second [saveNotes]
    replaces the notes of the first. *)
Theorem notes_by_fingerprint
        (self : gui) (fs : gmap str FS.node) (e e' : SshHostEntry)
        (notes notes2 : str) :
  fs !! getNotesPath self e <> Some FS.Locked ->
  exists fs',
    saveNotes self fs e notes = Returns fs' /\
    (getHostHash e' = getHostHash e ->
     loadNotes self fs' e' = Returns (Json.String_ notes)) /\
    (options e' !! lit "hostname" = Some (default (host_alias e)
                                            (options e !! lit "hostname")) ->
     getHostHash e' = getHostHash e) /\
    (getNotesPath self e' <> getNotesPath self e ->
     loadNotes self fs' e' = loadNotes self fs e') /\
    exists fs'',
      saveNotes self fs' e notes2 = Returns fs'' /\
      loadNotes self fs'' e = Returns (Json.String_ notes2).
Proof.
  intros Hok.
  assert (Hsave : forall fs0 n,
             fs0 !! getNotesPath self e <> Some FS.Locked ->
             exists data,
               saveNotes self fs0 e n
               = Returns (<[getNotesPath self e := FS.File (Json.dumps data)]> fs0)
               /\ Json.get (lit "notes") (Json.as_strings data) (Json.String_ [])
                  = Json.String_ n).
  { intros fs0 n H0. eexists. split.
    - unfold saveNotes, try_except, FS.write_text.
      destruct (fs0 !! getNotesPath self e) as [[old|]|]; [| congruence |];
        reflexivity.
    - reflexivity. }
  assert (Hload : forall fs0 e0 data n,
             fs0 !! getNotesPath self e0 = Some (FS.File (Json.dumps data)) ->
             Json.get (lit "notes") (Json.as_strings data) (Json.String_ [])
             = Json.String_ n ->
             loadNotes self fs0 e0 = Returns (Json.String_ n)).
  { intros fs0 e0 data n H0 Hn.
    unfold loadNotes, try_except, FS.exists_, FS.read_text, json_loads.
    rewrite H0. cbn [negb]. rewrite loads_dumps. cbn [data_get]. rewrite Hn.
    reflexivity. }
  destruct (Hsave fs notes Hok) as (data & Hs & Hn).
  eexists. split; [exact Hs |]. split; [| split; [| split]].
  - intros Hh. apply (Hload _ _ data); [| exact Hn].
    unfold getNotesPath. rewrite Hh. apply lookup_insert_eq.
  - intros Hh. unfold getHostHash. rewrite Hh. reflexivity.
  - intros Hp. unfold loadNotes, FS.exists_, FS.read_text.
    rewrite !lookup_insert_ne by congruence. reflexivity.
  - destruct (Hsave (<[getNotesPath self e := FS.File (Json.dumps data)]> fs) notes2)
      as (data2 & Hs2 & Hn2).
    { rewrite lookup_insert_eq. discriminate. }
    eexists. split; [exact Hs2 |].
    apply (Hload _ _ data2); [apply lookup_insert_eq | exact Hn2].
Qed.

Lemma notes_by_fingerprint_witness :
  let self := {| config_path := lit "/home/u/.ssh/config";
                 notes_dir_path := lit "/home/u/.ssh/notes";
                 session_logs_dir_path := lit "/home/u/.ssh/session_logs";
                 selected_entry := None |} in
  let web := {| host_alias := lit "web";
                options := {[ lit "hostname" := lit "example.com" ]} |} in
  let bare := {| host_alias := lit "example.com"; options := ∅ |} in
  exists fs',
    saveNotes self ∅ bare (lit "rack 4") = Returns fs' /\
    loadNotes self fs' web = Returns (Json.String_ (lit "rack 4")).
Proof.
  intros self web bare.
  destruct (notes_by_fingerprint self ∅ bare web (lit "rack 4") [])
    as (fs' & Hs & Hsame & Hhash & _).
  - rewrite lookup_empty. discriminate.
  - exists fs'. split; [exact Hs |]. apply Hsame. apply Hhash.
    vm_compute. reflexivity.
Defined.



End NoteMoreProperties.

(* ===================================================================== *)
(** * A second identity file for the same host *)
(* ===================================================================== *)

Module Shadow.
Import Str StrFacts SshConfigParser ParserFacts ParserMore MutatorParser.

(** ** [split] at a character and [join] *)

Lemma split_on_line sep x rest :
  Forall (fun c => c <> sep) x ->
  split_on sep (x ++ sep :: rest) = x :: split_on sep rest /\
  split_on sep x = [x].
Proof.
  induction 1 as [|c x Hc Hx [IH1 IH2]].
  - cbn [app split_on]. rewrite Ascii.eqb_refl. split; reflexivity.
  - cbn [app split_on]. destruct (Ascii.eqb c sep) eqn:E.
    + apply Ascii.eqb_eq in E. contradiction.
    + rewrite IH1, IH2. split; reflexivity.
Qed.

Lemma split_on_no_sep sep s :
  Forall (Forall (fun c => c <> sep)) (split_on sep s).
Proof.
  induction s as [|c s IH]; cbn [split_on]; [repeat constructor |].
  destruct (Ascii.eqb c sep) eqn:E.
  - constructor; [constructor | exact IH].
  - assert (Hc : c <> sep).
    { intros ->. rewrite Ascii.eqb_refl in E. discriminate. }
    destruct (split_on sep s) as [|l ls]; [repeat constructor; exact Hc |].
    inversion IH; subst. constructor; [constructor |]; assumption.
Qed.

(** Lines without the separator are the lines of their text. *)
Lemma split_on_join sep (L : list str) :
  L <> [] -> Forall (Forall (fun c => c <> sep)) L ->
  split_on sep (join [sep] L) = L.
Proof.
  intros HL H. induction H as [|x L Hx HLs IH]; [congruence |].
  destruct L as [|y L].
  - cbn [join]. apply (split_on_line sep x []). exact Hx.
  - change (join [sep] (x :: y :: L)) with (x ++ [sep] ++ join [sep] (y :: L)).
    cbn [app]. rewrite (proj1 (split_on_line sep x _ Hx)), IH by discriminate.
    reflexivity.
Qed.

(** ** The line of an identity file as a directive *)

Lemma identity_line_has_directive key_path :
  forallb isspace key_path = false ->
  exists value,
    directive_of (SshGui.identity_line key_path)
    = Some (lit "identityfile", value).
Proof.
  intros Hk.
  destruct (identity_line_strip key_path) as (r & post & Hs & Hkk & Hpost).
  assert (Hw : word ("I"%char :: r) = lit "IdentityFile").
  { rewrite <- (word_app_spaces ("I"%char :: r) post Hpost). cbn [app].
    rewrite Hkk.
    change (lit "IdentityFile " ++ key_path)
      with (lit "IdentityFile" ++ " "%char :: key_path).
    apply word_app_space; [repeat constructor | reflexivity]. }
  assert (Ha : lstrip_by isspace (after_word ("I"%char :: r)) <> []).
  { intros E. apply lstrip_by_nil in E.
    pose proof (word_after_word ("I"%char :: r)) as Hd. rewrite Hw in Hd.
    assert (H : (lit "IdentityFile" ++ after_word ("I"%char :: r)) ++ post
                = lit "IdentityFile" ++ " "%char :: key_path).
    { rewrite <- Hd. exact Hkk. }
    rewrite <- app_assoc in H. apply app_inv_head in H.
    assert (Hall : forallb isspace (" "%char :: key_path) = true).
    { rewrite <- H, forallb_app, E, Hpost. reflexivity. }
    cbn [forallb] in Hall. rewrite Hk, andb_false_r in Hall. discriminate. }
  unfold directive_of, passed_over. rewrite Hs.
  change (negb (truthy ("I"%char :: r))
          || startswith (lit "#") ("I"%char :: r)) with false.
  cbv iota. unfold split_max1.
  rewrite (lstrip_by_id isspace "I"%char r eq_refl).
  destruct (lstrip_by isspace (after_word ("I"%char :: r))) as [|c rest] eqn:E;
    [congruence |].
  rewrite Hw. eexists. reflexivity.
Qed.

(** ** A directive after a directive with the same key *)

Lemma parse_line_shadow x y key value st :
  is_host_line (strip x) = false -> is_host_line (strip y) = false ->
  (forall k v, directive_of x = Some (k, v) -> k = key) ->
  directive_of y = Some (key, value) ->
  for_each parse_line [x; y] st = for_each parse_line [y] st.
Proof.
  intros Hx Hy Hk Hd. cbn [for_each].
  rewrite (parse_line_directive_of x st Hx).
  rewrite !(parse_line_directive_of y _ Hy), Hd.
  destruct (directive_of x) as [[k v]|] eqn:E; [| reflexivity].
  rewrite (Hk k v eq_refl).
  destruct (current_entry st) as [e|] eqn:Ec; [| rewrite Ec; reflexivity].
  cbn [current_entry entries host_alias options].
  rewrite insert_insert_eq. reflexivity.
Qed.

(** ** The texts *)

Lemma splitlines_inserted_before x b (A B : list str) :
  A <> [] -> Forall (fun c => islinebreak c = false) x ->
  exists P,
    splitlines (join ["010"%char] (A ++ b :: B))
    = P ++ splitlines (join ["010"%char] (b :: B)) /\
    splitlines (join ["010"%char] (A ++ x :: b :: B))
    = P ++ x :: splitlines (join ["010"%char] (b :: B)).
Proof.
  intros HA Hnl. destruct (splitlines_one x Hnl) as [H1 _].
  rewrite !join_app by (assumption || discriminate).
  change (join ["010"%char] (x :: b :: B))
    with (x ++ ["010"%char] ++ join ["010"%char] (b :: B)).
  cbn [app].
  rewrite (splitlines_app_lf (join ["010"%char] A)
             (x ++ "010"%char :: join ["010"%char] (b :: B))).
  rewrite (splitlines_app_lf x (join ["010"%char] (b :: B))), H1.
  rewrite (splitlines_app_lf (join ["010"%char] A)
             (join ["010"%char] (b :: B))).
  exists (splitlines (join ["010"%char] A ++ ["010"%char])).
  split; reflexivity.
Qed.

Lemma splitlines_join_cons y (B : list str) :
  y <> [] -> Forall (fun c => islinebreak c = false) y ->
  exists Q, splitlines (join ["010"%char] (y :: B)) = y :: Q.
Proof.
  intros Hy Hn. destruct (splitlines_one y Hn) as [H1 H2].
  destruct B as [|b B].
  - exists []. cbn [join]. apply H2, Hy.
  - change (join ["010"%char] (y :: b :: B))
      with (y ++ ["010"%char] ++ join ["010"%char] (b :: B)).
    cbn [app]. rewrite (splitlines_app_lf y (join ["010"%char] (b :: B))), H1.
    eexists. reflexivity.
Qed.

Lemma identity_line_no_break key_path :
  Forall (fun c => islinebreak c = false) key_path ->
  Forall (fun c => islinebreak c = false) (SshGui.identity_line key_path).
Proof.
  intros H. unfold SshGui.identity_line. apply Forall_app. split; [| exact H].
  repeat constructor.
Qed.

End Shadow.

Section ShadowProperties.
Import Str StrFacts SshConfigParser ParserFacts ParserMore MutatorParser Shadow.



End ShadowProperties.

(* ===================================================================== *)
(** * The list of the hosts *)
(* ===================================================================== *)

Module PyFacts.
Import Str StrFacts Py.

Lemma isdigit_not_space c : isdigit c = true -> isspace c = false.
Proof. destruct c as [[] [] [] [] [] [] [] []]; (reflexivity || discriminate). Qed.

Lemma uint_str_digits d : Forall (fun c => isdigit c = true) (uint_str d).
Proof.
  induction d; cbn [uint_str]; constructor; (reflexivity || assumption).
Qed.

Lemma digits_value_cons c s acc :
  isdigit c = true ->
  digits_value acc (c :: s) = digits_value (10 * acc + digit_value c) s.
Proof.
  intros H. cbn [digits_value]. destruct (Ascii.eqb c "_") eqn:E.
  - apply Ascii.eqb_eq in E. subst c. discriminate.
  - rewrite H. reflexivity.
Qed.

Lemma digits_value_uint d acc :
  digits_value acc (uint_str d) = Some (Nat.of_uint_acc d acc).
Proof.
  revert acc. induction d; intros acc; cbn [uint_str Nat.of_uint_acc];
    [reflexivity | ..];
    rewrite digits_value_cons by reflexivity; rewrite IHd;
    do 2 f_equal; rewrite Nat.tail_mul_spec;
    match goal with |- context [digit_value ?c] =>
      let v := eval vm_compute in (digit_value c) in
      change (digit_value c) with v
    end; lia.
Qed.

Lemma str_nonempty n : str_ n <> [].
Proof.
  unfold str_. intros H.
  pose proof (DecimalNat.Unsigned.of_to n) as Hn.
  destruct (Nat.to_uint n) eqn:E; try discriminate.
  cbn in Hn. subst n. vm_compute in E. discriminate.
Qed.

(** [int(str(n))] is [n]. *)
Lemma int_str n : int_ (str_ n) = Ok (Z.of_nat n).
Proof.
  assert (Hd : Forall (fun c => isdigit c = true) (str_ n))
    by apply uint_str_digits.
  unfold int_. rewrite ParserMore.strip_word.
  2: apply str_nonempty.
  2:{ eapply Forall_impl; [exact Hd |]. apply isdigit_not_space. }
  assert (Hv : digits_value 0 (str_ n) = Some n).
  { unfold str_. rewrite digits_value_uint.
    f_equal. apply DecimalNat.Unsigned.of_to. }
  destruct (str_ n) as [|c r] eqn:E; [destruct (str_nonempty n E) |].
  inversion Hd as [|? ? Hc _]; subst.
  destruct (Ascii.eqb c "-") eqn:E1.
  { apply Ascii.eqb_eq in E1. subst c. discriminate. }
  destruct (Ascii.eqb c "+") eqn:E2.
  { apply Ascii.eqb_eq in E2. subst c. discriminate. }
  rewrite Hc, Hv. reflexivity.
Qed.

Lemma str_inj n m : str_ n = str_ m -> n = m.
Proof.
  intros H. pose proof (int_str n) as Hn. rewrite H, int_str in Hn.
  injection Hn as Hn. lia.
Qed.

Lemma getitem_lookup {A} (xs : list A) i x :
  xs !! i = Some x -> getitem xs (Z.of_nat i) = Ok x.
Proof.
  intros H. pose proof (lookup_lt_Some _ _ _ H) as Hlt. unfold getitem.
  destruct (Z.ltb_spec (Z.of_nat i) 0) as [Hneg | _]; [lia |].
  destruct (Z.leb_spec 0 (Z.of_nat i)) as [_ | Hneg]; [| lia].
  destruct (Z.ltb_spec (Z.of_nat i) (Z.of_nat (length xs))) as [_ | Hge];
    [| lia].
  cbn [andb]. rewrite Nat2Z.id, H. reflexivity.
Qed.

(** ** [enumerate] *)

Lemma enumerate_fst {A} k (xs : list A) :
  map fst (combine (seq k (length xs)) xs) = seq k (length xs).
Proof.
  revert k. induction xs as [|x xs IH]; intros k; [reflexivity |].
  cbn. f_equal. apply IH.
Qed.

Lemma enumerate_snd {A} k (xs : list A) :
  map snd (combine (seq k (length xs)) xs) = xs.
Proof.
  revert k. induction xs as [|x xs IH]; intros k; [reflexivity |].
  cbn. f_equal. apply IH.
Qed.

Lemma enumerate_In {A} k (xs : list A) i x :
  In (i, x) (combine (seq k (length xs)) xs) <->
  k <= i /\ xs !! (i - k) = Some x.
Proof.
  revert k. induction xs as [|y xs IH]; intros k; cbn [length seq combine In].
  - split; [tauto | intros [_ H]; discriminate].
  - rewrite IH. split.
    + intros [[= <- <-] | [Hk H]].
      * split; [lia |]. rewrite Nat.sub_diag. reflexivity.
      * split; [lia |]. replace (i - k) with (S (i - S k)) by lia. exact H.
    + intros [Hk H]. destruct (decide (i = k)) as [-> | Hne].
      * left. rewrite Nat.sub_diag in H. cbn in H. congruence.
      * right. split; [lia |].
        replace (i - k) with (S (i - S k)) in H by lia. exact H.
Qed.

Lemma even_mod2 n : (n mod 2 =? 0) = Nat.even n.
Proof.
  destruct (Nat.even n) eqn:E.
  - apply Nat.even_spec in E. destruct E as [k ->].
    rewrite Nat.mul_comm, Nat.Div0.mod_mul. reflexivity.
  - apply Nat.eqb_neq. intros H.
    assert (Nat.even n = true); [| congruence].
    apply Nat.even_spec. exists (n / 2).
    pose proof (Nat.div_mod_eq n 2). lia.
Qed.

Lemma Forall2_In_r {A B} (R : A -> B -> Prop) xs ys y :
  Forall2 R xs ys -> In y ys -> exists x, In x xs /\ R x y.
Proof.
  induction 1 as [|x y' xs ys HR _ IH]; cbn [In]; [tauto |].
  intros [<- | H]; [eauto |].
  destruct (IH H) as (x' & Hx & HR'). eauto.
Qed.

Lemma Forall2_In_l {A B} (R : A -> B -> Prop) xs ys x :
  Forall2 R xs ys -> In x xs -> exists y, In y ys /\ R x y.
Proof.
  induction 1 as [|x' y xs ys HR _ IH]; cbn [In]; [tauto |].
  intros [<- | H]; [eauto |].
  destruct (IH H) as (y' & Hy & HR'). eauto.
Qed.

End PyFacts.

Module ViewFacts.
Import Str StrFacts Py PyFacts.

Lemma tree_insert_fresh tree r :
  ~ In (iid r) (map iid tree) -> tree_insert tree r = Ok (tree ++ [r]).
Proof.
  intros H. unfold tree_insert.
  destruct (existsb (fun r' => bool_decide (iid r' = iid r)) tree) eqn:E;
    [| reflexivity].
  exfalso. apply H. apply existsb_exists in E as (r' & Hin & Heq).
  apply bool_decide_eq_true in Heq. rewrite <- Heq. apply in_map. exact Hin.
Qed.

(** The loop: the rows it adds are the rows of the items that are shown,
    in their order, tagged by their position. *)
Lemma filter_loop_rows term items :
  forall st idx,
    map iid (tree st) = map str_ idx ->
    List.NoDup (idx ++ map fst items) ->
    exists rows,
      filter_loop term items st
      = Ok {| tree := tree st ++ rows;
              row_count := row_count st + length rows |} /\
      Forall2 (fun r ie => iid r = str_ (fst ie) /\
                           values r = getDisplayLine (snd ie)) rows
        (List.filter (fun ie => shown term (snd ie)) items) /\
      forall n r, rows !! n = Some r ->
                  tags r = if Nat.even (row_count st + n) then lit "evenrow"
                           else lit "oddrow".
Proof.
  induction items as [|[index entry] items IH]; intros st idx Hidx Hnd.
  - exists []. cbn [filter_loop List.filter length]. split; [| split].
    + rewrite app_nil_r, Nat.add_0_r. destruct st; reflexivity.
    + constructor.
    + intros n r H. destruct n; discriminate.
  - cbn [filter_loop List.filter snd]. unfold shown at 1.
    destruct (truthy term && negb (contains term (searchable entry))) eqn:E.
    + assert (Hs : negb (truthy term) || contains term (searchable entry)
                   = false).
      { destruct (truthy term), (contains term (searchable entry));
          cbn in *; congruence. }
      rewrite Hs. apply (IH st idx Hidx).
      cbn [map fst] in Hnd. apply List.NoDup_remove_1 in Hnd. exact Hnd.
    + assert (Hs : negb (truthy term) || contains term (searchable entry)
                   = true).
      { destruct (truthy term), (contains term (searchable entry));
          cbn in *; congruence. }
      rewrite Hs. cbn [map fst] in Hnd. rewrite tree_insert_fresh.
      2:{ cbn [iid]. rewrite Hidx. intros Hin.
          apply in_map_iff in Hin as (j & Hj & Hin).
          apply str_inj in Hj. subst j.
          apply List.NoDup_remove_2 in Hnd. apply Hnd.
          apply in_or_app. left. exact Hin. }
      set (r0 := {| iid := str_ index;
                    values := getDisplayLine entry;
                    tags := if row_count st mod 2 =? 0 then lit "evenrow"
                            else lit "oddrow" |}).
      destruct (IH {| tree := tree st ++ [r0];
                      row_count := row_count st + 1 |} (idx ++ [index]))
        as (rows & Hloop & Hrows & Htags).
      * cbn [tree]. rewrite !map_app, Hidx. reflexivity.
      * rewrite <- app_assoc. exact Hnd.
      * exists (r0 :: rows). rewrite Hloop. cbn [tree row_count length].
        split; [| split].
        -- rewrite <- app_assoc. do 2 f_equal. lia.
        -- constructor; [split; reflexivity | exact Hrows].
        -- intros [|n] r H.
           ++ change (Some r0 = Some r) in H. apply (inj Some) in H. subst r.
              unfold r0. cbn [tags].
              rewrite Nat.add_0_r, even_mod2. reflexivity.
           ++ change (rows !! n = Some r) in H. rewrite (Htags n r H).
              cbn [row_count].
              replace (row_count st + 1 + n) with (row_count st + S n) by lia.
              reflexivity.
Qed.

(** The rows of [filterEntries]. *)
Lemma filterEntries_rows search_var entries :
  exists rows,
    filterEntries search_var entries = Ok rows /\
    Forall2 (fun r ie => iid r = str_ (fst ie) /\
                           values r = getDisplayLine (snd ie)) rows
      (List.filter (fun ie => shown (lower search_var) (snd ie))
                   (enumerate entries)) /\
    forall n r, rows !! n = Some r ->
                tags r = if Nat.even n then lit "evenrow" else lit "oddrow".
Proof.
  destruct (filter_loop_rows (lower search_var) (enumerate entries)
              {| tree := []; row_count := 0 |} [])
    as (rows & Hloop & Hrows & Htags).
  - reflexivity.
  - cbn [app]. unfold enumerate. rewrite enumerate_fst. apply List.seq_NoDup.
  - exists rows. unfold filterEntries. rewrite Hloop. cbn [tree app].
    split; [reflexivity |]. split; [exact Hrows | exact Htags].
Qed.

Lemma startswith_app sub a b :
  startswith sub a = true -> startswith sub (a ++ b) = true.
Proof.
  revert a. induction sub as [|p sub IH]; intros a H; [reflexivity |].
  destruct a as [|c a]; [discriminate |]. cbn [app startswith] in *.
  destruct (Ascii.eqb p c); [apply IH; exact H | discriminate].
Qed.

Lemma contains_app sub a b :
  contains sub a = true -> contains sub (a ++ b) = true.
Proof.
  induction a as [|c a IH]; intros H.
  - cbn [contains] in H. rewrite orb_false_r in H.
    destruct sub; [| discriminate]. destruct b; reflexivity.
  - cbn [app contains] in *. apply orb_true_iff in H as [H | H].
    + change (c :: a ++ b) with ((c :: a) ++ b).
      rewrite (startswith_app _ _ _ H). reflexivity.
    + rewrite (IH H). apply orb_true_r.
Qed.

End ViewFacts.

Section ViewProperties.
Import Str StrFacts Py PyFacts ViewFacts.

(** X8.  [filterEntries] never fails on an identifier that the tree has
    already: the identifiers of its rows are pairwise different.  Every
    row stands for an entry of [self.entries], whatever the search term
    leaves out before it: the identifier of the row is the index of the
    entry in [self.entries], its text is the label of that entry, and
    [onSelectEntry] with the row selected makes that entry the selected
    one, without an error. *)
Theorem filterEntries_select
        (search_var : str) (entries : list SshHostEntry)
        (selected_entry : option SshHostEntry) :
  exists rows,
    filterEntries search_var entries = Ok rows /\
    NoDup (iid <$> rows) /\
    Forall (fun r =>
              exists index entry,
                iid r = str_ index /\ entries !! index = Some entry /\
                values r = getDisplayLine entry /\
                onSelectEntry [iid r] entries selected_entry
                = Ok (Some entry)) rows.
Proof.
  destruct (filterEntries_rows search_var entries) as (rows & H & Hrows & _).
  exists rows. split; [exact H |].
  set (items := List.filter (fun ie => shown (lower search_var) (snd ie))
                            (enumerate entries)) in Hrows.
  assert (Hnd : List.NoDup (map fst items)).
  { unfold items. clear.
    assert (Hall : List.NoDup (map fst (enumerate entries))).
    { unfold enumerate. rewrite enumerate_fst. apply List.seq_NoDup. }
    induction (enumerate entries) as [|ie l IH]; [constructor |].
    cbn [List.filter]. cbn [map] in Hall. inversion Hall as [|? ? Hn Hl]; subst.
    destruct (shown (lower search_var) (snd ie)); [| apply IH; exact Hl].
    cbn [map]. constructor; [| apply IH; exact Hl].
    intros Hin. apply Hn. apply in_map_iff in Hin as (x & Hx & Hin).
    apply in_map_iff. exists x. split; [exact Hx |].
    apply filter_In in Hin as [Hin _]. exact Hin. }
  split.
  - apply NoDup_ListNoDup.
    assert (Hi : iid <$> rows = map str_ (map fst items)).
    { clear Hnd H. induction Hrows as [|r ie rows l [Hr _] _ IH]; [reflexivity |].
      cbn [fmap list_fmap map]. rewrite Hr. f_equal. exact IH. }
    rewrite Hi. clear Hi. induction Hnd as [|i l Hn _ IH]; [constructor |].
    cbn [map]. constructor; [| exact IH].
    intros Hin. apply in_map_iff in Hin as (j & Hj & Hin).
    apply str_inj in Hj. subst j. contradiction.
  - apply List.Forall_forall. intros r Hr.
    destruct (Forall2_In_l _ _ _ _ Hrows Hr) as ([index entry] & Hin & Hi & Hv).
    cbn [fst snd] in Hi, Hv.
    apply filter_In in Hin as [Hin _]. unfold enumerate in Hin.
    apply enumerate_In in Hin as [_ Hl]. rewrite Nat.sub_0_r in Hl.
    exists index, entry. split; [exact Hi |]. split; [exact Hl |].
    split; [exact Hv |].
    unfold onSelectEntry. rewrite Hi, int_str, (getitem_lookup _ _ _ Hl).
    reflexivity.
Qed.

(** X9.  The tags of the rows follow the position of the row in the
    tree, not the index of the entry: the first row has [evenrow], and
    the tags take turns from row to row, also when the search term leaves
    entries out. *)
Theorem filterEntries_tags
        (search_var : str) (entries : list SshHostEntry)
        (rows : list row) (n : nat) (r : row) :
  filterEntries search_var entries = Ok rows ->
  rows !! n = Some r ->
  tags r = if Nat.even n then lit "evenrow" else lit "oddrow".
Proof.
  intros H Hn.
  destruct (filterEntries_rows search_var entries) as (rows' & H' & _ & Ht).
  rewrite H in H'. injection H' as <-. apply (Ht n r Hn).
Qed.

Lemma filterEntries_tags_witness :
  let entries := [ {| host_alias := lit "web"; options := ∅ |};
                   {| host_alias := lit "db"; options := ∅ |};
                   {| host_alias := lit "web2"; options := ∅ |} ] in
  exists rows r,
    filterEntries (lit "WEB") entries = Ok rows /\ rows !! 1 = Some r /\
    iid r = lit "2" /\ tags r = lit "oddrow".
Proof.
  intros entries. eexists. eexists.
  split; [reflexivity |]. split; [reflexivity |]. split; [reflexivity |].
  refine (filterEntries_tags (lit "WEB") entries _ 1 _ _ _); reflexivity.
Defined.


End ViewProperties.

(* ===================================================================== *)
(** * The note file, the notes of the window and the key files *)
(* ===================================================================== *)

Module KeyFacts.
Import Str StrFacts.

Lemma rstrip_by_app_space p s c :
  p c = true -> rstrip_by p (s ++ [c]) = rstrip_by p s.
Proof.
  intros Hc. induction s as [|d s IH]; cbn [app rstrip_by].
  - rewrite Hc. reflexivity.
  - rewrite IH. reflexivity.
Qed.

(** White space at the end does not change what [strip] returns, and
    [strip] changes nothing in what it returned. *)
Lemma strip_app_space s c : isspace c = true -> strip (s ++ [c]) = strip s.
Proof.
  intros Hc. unfold strip, strip_by. rewrite (rstrip_by_app_space _ _ _ Hc).
  reflexivity.
Qed.

Lemma strip_strip s : strip (strip s) = strip s.
Proof.
  destruct (strip_shape s) as [-> | [H1 H2]]; [reflexivity |].
  apply ParserFacts.strip_by_id; assumption.
Qed.

End KeyFacts.

Section KeyProperties.
Import Str StrFacts KeyFacts.

(** X11.  The note file of an entry is a file of the directory of the
    notes, whatever the alias and the options of the entry are: its path
    is the path of the directory, a slash and a name of 17 characters, the
    fingerprint and [.json], and the name holds no slash. *)
Theorem getNotesPath_inside (self : SshGui.gui) (entry : SshHostEntry) :
  exists name,
    SshGui.getNotesPath self entry
    = SshGui.notes_dir_path self ++ lit "/" ++ name /\
    name = SshGui.getHostHash entry ++ lit ".json" /\
    length name = 17 /\
    ~ In "/"%char name.
Proof.
  set (identifier := default (host_alias entry)
                             (options entry !! lit "hostname")).
  pose proof (MD5Facts.hexdigest_length identifier) as Hlen.
  pose proof (MD5Facts.hexdigest_digits identifier) as Hdig.
  assert (Hh : Forall (fun c => In c MD5.hexdigits) (SshGui.getHostHash entry)).
  { unfold SshGui.getHostHash. fold identifier. apply Forall_take. exact Hdig. }
  assert (Hl : length (SshGui.getHostHash entry) = 12).
  { unfold SshGui.getHostHash. fold identifier.
    rewrite length_firstn, Hlen. reflexivity. }
  assert (Hno : ~ In "/"%char (SshGui.getHostHash entry ++ lit ".json")).
  { intros Hin. apply in_app_or in Hin as [Hin | Hin].
    - rewrite List.Forall_forall in Hh. specialize (Hh _ Hin).
      cbn in Hh. intuition discriminate.
    - cbn in Hin. intuition discriminate. }
  exists (SshGui.getHostHash entry ++ lit ".json").
  split; [| split; [reflexivity | split; [| exact Hno]]].
  - unfold SshGui.getNotesPath, FS.join.
    destruct (SshGui.getHostHash entry) as [|c r] eqn:E; [discriminate |].
    cbn [app startswith lit String.list_ascii_of_string].
    destruct (Ascii.eqb "/" c) eqn:Ec; [| reflexivity].
    exfalso. apply Ascii.eqb_eq in Ec. subst c. apply Hno. left. reflexivity.
  - rewrite length_app, Hl. reflexivity.
Qed.



(** X13.  Two choices of the key dialog never name the same key file:
    for the key types of its radio buttons, a file name of
    [getKeyFilename] comes from one key type and one key name only.  This
    rests on those key types: with an underscore in a key type two choices
    can meet. *)
Theorem getKeyFilename_one_choice (key_type key_name key_type' key_name' : str) :
  (In key_type dialog_key_types -> In key_type' dialog_key_types ->
   getKeyFilename key_type key_name = getKeyFilename key_type' key_name' ->
   key_type = key_type' /\ key_name = key_name') /\
  getKeyFilename (lit "rsa") (lit "a_b") = getKeyFilename (lit "rsa_a") (lit "b").
Proof.
  split; [| reflexivity].
  intros Ht Ht' H. unfold getKeyFilename in H.
  cbn [dialog_key_types In] in Ht, Ht'.
  destruct Ht as [<- | [<- | [<- | []]]];
    destruct Ht' as [<- | [<- | [<- | []]]];
    destruct key_name as [|c r]; destruct key_name' as [|c' r'];
    cbn in H; try discriminate H; try (split; reflexivity);
    injection H as <- <-; split; reflexivity.
Qed.

Lemma getKeyFilename_one_choice_witness :
  lit "rsa" = lit "rsa" /\ lit "work" = lit "work".
Proof.
  apply (getKeyFilename_one_choice (lit "rsa") (lit "work")
           (lit "rsa") (lit "work")).
  - right. right. left. reflexivity.
  - right. right. left. reflexivity.
  - reflexivity.
Defined.



End KeyProperties.
